(** * Solver of gtp_connection.py (Gomoku, assignment 2)

    A shallow embedding of the exact solver of [src/assignment2/gtp_connection.py]:
    the move orderer [orderMoves], the negamax searcher [alphabeta_tt], the
    iterative deepening driver [iterativeDeepening], the [solve] command with
    its alarm, and the coordinate helpers [format_point] / [move_to_coord];
    then the GTP command loop ([get_cmd], [has_arg_error], [color_to_int]),
    the [gogui-rules_legal_moves] listing, and the solvers the commands do
    not call ([negamaxBoolean], [solveForColor], the plain [alphabeta]).

    The board class and the transposition table live in modules of the
    repository that are not part of the sources ([board_util], the board
    and table classes).  The solver only uses them through a small interface,
    so the solver is embedded over that interface (a [Section] whose
    [Variable]s are the board's methods); the table, and a concrete Gomoku
    board used to run the code on examples, are modelled from the spec. *)

From Stdlib Require Import ZArith List Bool Lia Permutation Sorting.Sorted.
From Stdlib Require Import String Ascii.
From stdpp Require Import base gmap.

Import ListNotations.
Open Scope Z_scope.

(** ** Constants of [board_util] *)

(** Modelled from the spec: [board_util] is not in the sources.  The colour
    codes are those of the board module; [INFINITY] is the open end of the
    full search window (−∞, +∞), above every outcome value. *)
Definition EMPTY : Z := 0.
Definition BLACK : Z := 1.
Definition WHITE : Z := 2.
Definition BORDER : Z := 3.
Definition INFINITY : Z := 1000000.

(** [GoBoardUtil.opponent]. *)
Definition opponent (c : Z) : Z := WHITE + BLACK - c.

(** ** Transposition table *)

(** Modelled from the spec (§4.4): the table class is not in the sources.
    "Storing a move is independent of storing a value (two separate
    associative stores)"; a store overwrites (last write wins); [lookup]
    returns the entry (recorded value, recorded best move) or nothing. *)
Record TT := mkTT { tt_scores : gmap Z Z; tt_moves : gmap Z Z }.

Definition empty_tt : TT := mkTT ∅ ∅.

Definition tt_lookup (tt : TT) (h : Z) : option (option Z * option Z) :=
  match tt_scores tt !! h, tt_moves tt !! h with
  | None, None => None
  | s, m => Some (s, m)
  end.

Definition tt_storeScore (tt : TT) (h score : Z) : TT :=
  mkTT (<[h := score]> (tt_scores tt)) (tt_moves tt).

Definition tt_storeMove (tt : TT) (h move : Z) : TT :=
  mkTT (tt_scores tt) (<[h := move]> (tt_moves tt)).

(** ** The searcher, over the board interface *)

Section Search.

Context {Board : Type}.

(** The board's methods used by the solver (spec §6). *)
Variable get_empty_points : Board -> list Z.
Variable current_player : Board -> Z.
Variable play_move : Board -> Z -> Z -> Board.
Variable undoMove : Board -> Board.
Variable endOfGame : Board -> bool.
Variable staticallyEvaluateForToPlay : Board -> Z.
Variable hash : Board -> Z.

(** [storeScore(tt, state, score)] stores and returns [score]; the new
    table is returned next to it. *)
Definition storeScore (tt : TT) (state : Board) (score : Z) : TT :=
  tt_storeScore tt (hash state) score.

Definition storeMove (tt : TT) (state : Board) (move : Z) : TT :=
  tt_storeMove tt (hash state) move.

(** The [while] loop of [orderMoves]: the index of the first entry whose
    heuristic is not [> heuristic]. *)
Fixpoint find_index (orderedMoves : list (Z * Z)) (heuristic : Z) : nat :=
  match orderedMoves with
  | [] => 0
  | (_, h) :: rest => if h >? heuristic then S (find_index rest heuristic) else 0
  end.

(** One step of [orderMoves]: [append] at the end or [insert(index, ...)]. *)
Definition insert_ordered (orderedMoves : list (Z * Z)) (m heuristic : Z)
  : list (Z * Z) :=
  if (0 <? length orderedMoves)%nat then
    let index := find_index orderedMoves heuristic in
    if (length orderedMoves <=? index)%nat then orderedMoves ++ [(m, heuristic)]
    else firstn index orderedMoves ++ (m, heuristic) :: skipn index orderedMoves
  else orderedMoves ++ [(m, heuristic)].

(** The [for m in state.get_empty_points()] loop of [orderMoves]: play,
    evaluate for the side to move at the child, insert, undo. *)
Fixpoint orderMoves_loop (ms : list Z) (state : Board) (orderedMoves : list (Z * Z))
  : list (Z * Z) * Board :=
  match ms with
  | [] => (orderedMoves, state)
  | m :: ms' =>
      let state := play_move state m (current_player state) in
      let heuristic := staticallyEvaluateForToPlay state in
      let orderedMoves := insert_ordered orderedMoves m heuristic in
      let state := undoMove state in
      orderMoves_loop ms' state orderedMoves
  end.

Definition orderMoves (state : Board) : list (Z * Z) * Board :=
  orderMoves_loop (get_empty_points state) state [].

(** [if (result != None): if (result[0] == 5): return result[0]]. *)
Definition proven_entry (result : option (option Z * option Z)) : bool :=
  match result with
  | Some (Some s, _) => s =? 5
  | _ => false
  end.

(** The [for m in orderedMoves] loop of [alphabeta_tt]; [child] is the
    recursive call [alphabeta_tt(state, a, b, tt, depth + 1, ...)]. *)
Fixpoint ab_loop (child : Board -> Z -> Z -> TT -> Z * Board * TT)
    (orderedMoves : list (Z * Z)) (state : Board) (alpha beta : Z) (tt : TT)
    : Z * Board * TT :=
  match orderedMoves with
  | [] => (alpha, state, storeScore tt state alpha)
  | (m, _) :: rest =>
      let state := play_move state m (current_player state) in
      let '(v, state, tt1) := child state (- beta) (- alpha) tt in
      let value := - v in
      let '(winMove, alpha) :=
        if value >? alpha
        then ((if (value =? 0) || (value =? 5) then Some m else None), value)
        else (None, alpha) in
      let state := undoMove state in
      let tt := match winMove with Some w => storeMove tt1 state w | None => tt1 end in
      if value >=? beta then (beta, state, storeScore tt state beta)
      else ab_loop child rest state alpha beta tt
  end.

(** [alphabeta_tt(state, alpha, beta, tt, depth, depthMove, depthLimit)],
    returning the value together with the board and the table it leaves.
    [fuel] bounds the recursion; started at [depthLimit - depth] (see
    [alphabeta_root]) it is never exhausted before [depth == depthLimit]
    stops the recursion, so the [O] branch is never taken from the driver. *)
Fixpoint alphabeta_tt (fuel : nat) (state : Board) (alpha beta : Z) (tt : TT)
    (depth : nat) (depthMove : Z) (depthLimit : nat) : Z * Board * TT :=
  if proven_entry (tt_lookup tt (hash state)) then (5, state, tt)
  else if endOfGame state || Nat.eqb depth depthLimit then
    let result := staticallyEvaluateForToPlay state in
    (result, state, storeScore tt state result)
  else
    match fuel with
    | O => (alpha, state, tt)
    | S fuel' =>
        let '(orderedMoves, state) := orderMoves state in
        ab_loop (fun st a b t => alphabeta_tt fuel' st a b t (S depth) depthMove depthLimit)
          orderedMoves state alpha beta tt
    end.

Definition alphabeta_root (state : Board) (alpha beta : Z) (tt : TT)
    (depth : nat) (depthMove : Z) (depthLimit : nat) : Z * Board * TT :=
  alphabeta_tt (depthLimit - depth) state alpha beta tt depth depthMove depthLimit.

End Search.

(** ** The iterative deepening driver *)

(** [result == 5 or result == -5]. *)
Definition decisive (result : Z) : bool := (result =? 5) || (result =? -5).

Section Driver.

(** The driver only threads the searcher's state (board and table) from one
    call to the next, so it is stated over any searcher
    [search st alpha beta depth depthMove depthLimit]. *)
Context {St : Type}.
Variable search : St -> Z -> Z -> nat -> Z -> nat -> Z * St.

(** [for d in range(d, d + count)] with the running [result]. *)
Fixpoint id_loop (count d : nat) (result : Z) (st : St) : Z * St :=
  match count with
  | O => (result, st)
  | S count' =>
      let '(result, st) := search st (- INFINITY) INFINITY 0 INFINITY d in
      if decisive result then (result, st)
      else id_loop count' (S d) result st
  end.

(** [iterativeDeepening(board)]: [result = 1], then
    [for d in range(1, n + 1)] where [n] is [board.get_empty_points().size]. *)
Definition iterativeDeepening_gen (n : nat) (st : St) : Z * St :=
  id_loop n 1 1 st.

End Driver.

(** A call of the searcher as the driver made it: its window, depth, depth
    limit and the value it returned. *)
Record call := mkCall {
  call_alpha : Z; call_beta : Z; call_depth : nat; call_limit : nat; call_value : Z }.

(** A searcher that also appends each of its calls to a log. *)
Definition logged {St : Type} (search : St -> Z -> Z -> nat -> Z -> nat -> Z * St)
    (sl : St * list call) (alpha beta : Z) (depth : nat) (depthMove : Z)
    (depthLimit : nat) : Z * (St * list call) :=
  let '(st, log) := sl in
  let '(r, st') := search st alpha beta depth depthMove depthLimit in
  (r, (st', log ++ [mkCall alpha beta depth depthLimit r])).

Section Solver.

Context {Board : Type}.
Variable get_empty_points : Board -> list Z.
Variable current_player : Board -> Z.
Variable play_move : Board -> Z -> Z -> Board.
Variable undoMove : Board -> Board.
Variable endOfGame : Board -> bool.
Variable staticallyEvaluateForToPlay : Board -> Z.
Variable hash : Board -> Z.

(** [alphabeta_tt(board, alpha, beta, board.hashTable, depth, depthMove,
    depthLimit)] on the pair (board, table). *)
Definition search_ab (st : Board * TT) (alpha beta : Z) (depth : nat)
    (depthMove : Z) (depthLimit : nat) : Z * (Board * TT) :=
  let '(board, table) := st in
  let '(r, board', tt') :=
    alphabeta_root get_empty_points current_player play_move undoMove endOfGame
      staticallyEvaluateForToPlay hash board alpha beta table depth depthMove depthLimit in
  (r, (board', tt')).

Definition iterativeDeepening (board : Board) (tt : TT) : Z * (Board * TT) :=
  iterativeDeepening_gen search_ab (length (get_empty_points board)) (board, tt).

End Solver.

(** ** A concrete Gomoku board *)

(** Modelled from the spec (§6 and §3): the board class is not in the
    sources.  A board of side [size] is the padded one-dimensional array of
    [GoBoard] (point [row * (size + 1) + col], a border column at [col = 0]
    and border rows around), the side to move, and the stack of played
    points that [undoMove] pops.  [get_empty_points] enumerates the empty
    points in increasing index order; [play_move] on an occupied point
    changes nothing; [staticallyEvaluateForToPlay] is the fixed proven
    magnitude 5: +5 when the side to move has five in a row, −5 when the
    opponent has, 0 otherwise. *)
Module Gomoku.

Record GoBoard := mkBoard {
  size : nat; board : list Z; current_player : Z; moves : list Z }.

Definition NS (b : GoBoard) : Z := Z.of_nat (size b) + 1.

Definition maxpoint (n : nat) : nat := (n * n + 3 * (n + 1))%nat.

Definition on_board (n : nat) (p : nat) : bool :=
  let ns := S n in
  let row := Nat.div p ns in
  let col := Nat.modulo p ns in
  (1 <=? row)%nat && (row <=? n)%nat && (1 <=? col)%nat && (col <=? n)%nat.

(** [GoBoard(size)]: an empty board with Black to play. *)
Definition new_board (n : nat) : GoBoard :=
  mkBoard n (map (fun p => if on_board n p then EMPTY else BORDER) (seq 0 (maxpoint n)))
    BLACK [].

Definition get (b : GoBoard) (p : Z) : Z :=
  if p <? 0 then BORDER else nth (Z.to_nat p) (board b) BORDER.

Definition set (b : GoBoard) (p c : Z) : list Z := <[Z.to_nat p := c]> (board b).

Definition get_empty_points (b : GoBoard) : list Z :=
  map Z.of_nat (filter (fun i => nth i (board b) BORDER =? EMPTY) (seq 0 (length (board b)))).

Definition play_move (b : GoBoard) (p color : Z) : GoBoard :=
  if get b p =? EMPTY
  then mkBoard (size b) (set b p color) (opponent color) (p :: moves b)
  else b.

Definition undoMove (b : GoBoard) : GoBoard :=
  match moves b with
  | p :: rest => mkBoard (size b) (set b p EMPTY) (opponent (current_player b)) rest
  | [] => b
  end.

(** The colour of a five-in-a-row through [p] in direction [d], if any. *)
Definition five_at (b : GoBoard) (p d : Z) : bool :=
  let c := get b p in
  ((c =? BLACK) || (c =? WHITE)) &&
  forallb (fun k => get b (p + k * d) =? c) [1; 2; 3; 4].

Definition detect_five_in_a_row (b : GoBoard) : Z :=
  let dirs := [1; NS b; NS b + 1; NS b - 1] in
  match find (fun p => existsb (five_at b p) dirs)
              (map Z.of_nat (seq 0 (length (board b)))) with
  | Some p => get b p
  | None => EMPTY
  end.

Definition endOfGame (b : GoBoard) : bool :=
  negb (detect_five_in_a_row b =? EMPTY) ||
  match get_empty_points b with [] => true | _ => false end.

Definition staticallyEvaluateForToPlay (b : GoBoard) : Z :=
  let w := detect_five_in_a_row b in
  if w =? current_player b then 5
  else if w =? opponent (current_player b) then -5
  else 0.

(** The fingerprint: the stones and the side to move, read as one number. *)
Definition hash (b : GoBoard) : Z :=
  fold_left (fun acc c => acc * 4 + c) (board b) 0 * 4 + current_player b.

Definition board_size (b : GoBoard) : Z := Z.of_nat (size b).

(** A board set up with the given stones. *)
Definition setup (n : nat) (blacks whites : list (Z * Z)) (toPlay : Z) : GoBoard :=
  let b := new_board n in
  let pt rc := fst rc * (Z.of_nat n + 1) + snd rc in
  let cells := fold_left (fun l rc => <[Z.to_nat (pt rc) := BLACK]> l) blacks (board b) in
  let cells := fold_left (fun l rc => <[Z.to_nat (pt rc) := WHITE]> l) whites cells in
  mkBoard n cells toPlay [].

End Gomoku.

(** ** Python exceptions, and the coordinate helpers *)

Inductive exn := OSError | TypeError | ValueError | IndexError | AssertionError.

Inductive result (A : Type) := Ok (a : A) | Raise (e : exn).
Arguments Ok {A} a.
Arguments Raise {A} e.

(** Modelled from the spec: [board_util.PASS] is not in the sources; it is
    a value distinct from every coordinate pair and every point, here
    [None].  [board_util.MAXSIZE] is bounded by 25 ([assert MAXSIZE <= 25]
    in [format_point]); the coordinate helpers take it as a parameter
    [maxsize], and the runs below use 25. *)
Definition MAXSIZE : Z := 25.

Definition column_letters : string := "ABCDEFGHJKLMNOPQRSTUVWXYZ".

(** [s[i]] with Python's negative indices. *)
Definition py_index (s : string) (i : Z) : option ascii :=
  let n := Z.of_nat (String.length s) in
  let j := if i <? 0 then n + i else i in
  if (j <? 0) || (n <=? j) then None else String.get (Z.to_nat j) s.

Definition digit_char (d : nat) : ascii := ascii_of_nat (48 + d).

(** The decimal digits of [n], most significant first. *)
Fixpoint digits_aux (fuel n : nat) (acc : list nat) : list nat :=
  match fuel with
  | O => acc
  | S f => if (n <? 10)%nat then n :: acc
           else digits_aux f (Nat.div n 10) (Nat.modulo n 10 :: acc)
  end.

Definition digits (n : nat) : list nat := digits_aux (S n) n [].

(** [str(z)] for an integer. *)
Definition str_Z (z : Z) : string :=
  let ds := string_of_list_ascii (map digit_char (digits (Z.to_nat (Z.abs z)))) in
  if z <? 0 then String "-"%char ds else ds.

(** [divmod(point, boardsize + 1)], [PASS] unchanged. *)
Definition point_to_coord (point : option Z) (boardsize : Z) : option (Z * Z) :=
  match point with
  | None => None
  | Some p => Some (p / (boardsize + 1), p mod (boardsize + 1))
  end.

(** [format_point(move)]. *)
Definition format_point (maxsize : Z) (move : option (Z * Z)) : result string :=
  if negb (maxsize <=? 25) then Raise AssertionError
  else match move with
  | None => Ok "PASS"%string
  | Some (row, col) =>
      if negb ((0 <=? row) && (row <? maxsize)) || negb ((0 <=? col) && (col <? maxsize))
      then Raise ValueError
      else match py_index column_letters (col - 1) with
           | Some c => Ok (String c (str_Z row))
           | None => Raise IndexError
           end
  end.

(** [str.lower()] on ASCII. *)
Definition lower_char (c : ascii) : ascii :=
  let n := nat_of_ascii c in
  if (65 <=? n)%nat && (n <=? 90)%nat then ascii_of_nat (n + 32) else c.

Definition lower (s : string) : string :=
  string_of_list_ascii (map lower_char (list_ascii_of_string s)).

(** The characters [int()] strips around a literal: among those of code
    point below 256, the ASCII blanks [\t\n\v\f\r] and the space, NEL (133)
    and NBSP (160); not the separators 28 to 31, which [str.isspace] accepts. *)
Definition is_space (c : ascii) : bool :=
  let n := nat_of_ascii c in
  (n =? 32)%nat || ((9 <=? n)%nat && (n <=? 13)%nat) || (n =? 133)%nat || (n =? 160)%nat.

Fixpoint drop_spaces (l : list ascii) : list ascii :=
  match l with
  | c :: r => if is_space c then drop_spaces r else l
  | [] => []
  end.

Definition is_digit (c : ascii) : bool :=
  let n := nat_of_ascii c in (48 <=? n)%nat && (n <=? 57)%nat.

(** Digits with single underscores between them, read in base 10;
    [prev] says whether the previous character was a digit. *)
Fixpoint parse_digits (l : list ascii) (acc : Z) (prev : bool) : option Z :=
  match l with
  | [] => if prev then Some acc else None
  | c :: r =>
      if is_digit c then parse_digits r (acc * 10 + Z.of_nat (nat_of_ascii c - 48)) true
      else if prev && (nat_of_ascii c =? 95)%nat then parse_digits r acc false
      else None
  end.

(** [sys.get_int_max_str_digits()]: CPython 3.11 and later refuse to
    convert a decimal string of more digits, with [ValueError]. *)
Definition max_str_digits : nat := 4300.

(** [int(s)] for a string: surrounding whitespace, an optional sign, and a
    decimal literal of at most [max_str_digits] digits; [ValueError]
    otherwise. *)
Definition py_int (s : string) : result Z :=
  let l := rev (drop_spaces (rev (drop_spaces (list_ascii_of_string s)))) in
  let parsed :=
    match l with
    | c :: r =>
        if (nat_of_ascii c =? 45)%nat then option_map Z.opp (parse_digits r 0 false)
        else if (nat_of_ascii c =? 43)%nat then parse_digits r 0 false
        else parse_digits l 0 false
    | [] => None
    end in
  match parsed with
  | Some z =>
      if (max_str_digits <? length (List.filter is_digit (list_ascii_of_string s)))%nat
      then Raise ValueError else Ok z
  | None => Raise ValueError
  end.

(** [move_to_coord(point_str, board_size)]; [Ok None] is [PASS]. *)
Definition move_to_coord (maxsize : Z) (point_str : string) (board_size : Z)
    : result (option (Z * Z)) :=
  if negb ((2 <=? board_size) && (board_size <=? maxsize)) then Raise ValueError
  else
    let s := lower point_str in
    if String.eqb s "pass"%string then Ok None
    else
      let parsed :=
        match s with
        | EmptyString => Raise IndexError
        | String col_c rest =>
            let n := nat_of_ascii col_c in
            if negb ((97 <=? n)%nat && (n <=? 122)%nat) || (n =? 105)%nat then Raise ValueError
            else
              let col := Z.of_nat n - 97 in
              let col := if (n <? 105)%nat then col + 1 else col in
              match py_int rest with
              | Ok row => if row <? 1 then Raise ValueError else Ok (row, col)
              | Raise e => Raise e
              end
        end in
      match parsed with
      | Raise _ => Raise ValueError
      | Ok (row, col) =>
          if negb ((col <=? board_size) && (row <=? board_size)) then Raise ValueError
          else Ok (Some (row, col))
      end.

(** ** The [solve] command *)

Section SolveCmd.

Context {Board : Type}.
Variable get_empty_points : Board -> list Z.
Variable current_player : Board -> Z.
Variable play_move : Board -> Z -> Z -> Board.
Variable undoMove : Board -> Board.
Variable endOfGame : Board -> bool.
Variable staticallyEvaluateForToPlay : Board -> Z.
Variable hash : Board -> Z.
Variable board_size : Board -> Z.

(** The state [solve_cmd] reads or writes: the fields of [GtpConnection]
    it uses (the live board, its stones and side to move; the board's
    transposition table [self.board.hashTable]; [self.time];
    [self.genMoveRunning]), and whether the process has a SIGALRM
    scheduled ([alarm_armed]). *)
Record Conn := mkConn {
  conn_board : Board; conn_tt : TT; time : Z; genMoveRunning : bool; alarm_armed : bool }.

(** [signal.alarm(seconds)] converts [seconds] to a C [int]: outside
    [-2^31, 2^31 - 1] it raises [OverflowError] before anything is scheduled
    ([None]).  Otherwise the C [alarm] reads it as an [unsigned int] and
    schedules SIGALRM that many seconds later, replacing any scheduled one;
    0 schedules none. *)
Definition alarm_delay (seconds : Z) : option Z :=
  if (seconds <? - 2 ^ 31) || (2 ^ 31 - 1 <? seconds) then None
  else Some (seconds mod 2 ^ 32).

(** How the guarded block of [solve_cmd] meets the alarm.  [t_update] is
    the wall-clock time, in seconds from [signal.alarm(self.time)], at which
    [self.board.updateHash(board_copy)] has returned; [t_done] the time at
    which the block reaches [signal.alarm(0)], or raises before it.  The
    alarm raises [OSError] in [handler] at its delay; [NotFired armed] says
    whether it is still scheduled when the block ends. *)
Inductive alarm_outcome :=
  | Overflow | FiresBeforeUpdate | FiresAfterUpdate | NotFired (armed : bool).

Definition alarm_outcome_of (seconds : Z) (t_update t_done : nat) : alarm_outcome :=
  match alarm_delay seconds with
  | None => Overflow
  | Some d =>
      if d =? 0 then NotFired false
      else if d <=? Z.of_nat t_update then FiresBeforeUpdate
      else if d <=? Z.of_nat t_done then FiresAfterUpdate
      else NotFired true
  end.

(** The [respond] calls of the [try] block after [signal.alarm(0)]. *)
Definition solve_response (current : Z) (result : Z) (move : string) : string :=
  if (result =? 5) && (current =? BLACK) then ("b " ++ move)%string
  else if (result =? 5) && (current =? WHITE) then ("w " ++ move)%string
  else if (result =? -5) && (current =? BLACK) then "w"%string
  else if (result =? -5) && (current =? WHITE) then "b"%string
  else ("draw " ++ move)%string.

(** [solve_cmd(args)]: the new state, the responses written, and the value
    returned.  Modelled from the spec where the board class is missing:
    [self.board.copy()] is an independent copy of the live board and its
    table, and [self.board.updateHash(board_copy)] gives the live board the
    copy's table.  An alarm before [updateHash] has returned abandons the
    copy; one after it leaves the live board with the copy's table.  A
    missing table entry ([None[1]], [TypeError]) or a move [format_point]
    refuses raises before [signal.alarm(0)], so a scheduled alarm stays
    scheduled. *)
Definition solve_cmd (c : Conn) (t_update t_done : nat) : Conn * list string * option Z :=
  let unknown := if genMoveRunning c then [] else ["unknown"%string] in
  let search board_copy :=
    iterativeDeepening get_empty_points current_player play_move undoMove endOfGame
      staticallyEvaluateForToPlay hash board_copy (conn_tt c) in
  match alarm_outcome_of (time c) t_update t_done with
  | Overflow => (c, unknown, None)
  | FiresBeforeUpdate =>
      (mkConn (conn_board c) (conn_tt c) (time c) (genMoveRunning c) false, unknown, None)
  | FiresAfterUpdate =>
      let '(_, (_, tt_copy)) := search (conn_board c) in
      (mkConn (conn_board c) tt_copy (time c) (genMoveRunning c) false, unknown, None)
  | NotFired armed =>
      let board_copy := conn_board c in
      let current := current_player board_copy in
      let '(result, (board_copy, tt_copy)) := search board_copy in
      let failed := mkConn (conn_board c) tt_copy (time c) (genMoveRunning c) armed in
      let c' := mkConn (conn_board c) tt_copy (time c) (genMoveRunning c) false in
      match tt_lookup (conn_tt c') (hash (conn_board c')) with
      | None => (failed, unknown, None)
      | Some (_, mv) =>
          match format_point MAXSIZE (point_to_coord mv (board_size board_copy)) with
          | Raise _ => (failed, unknown, None)
          | Ok move =>
              (c', (if genMoveRunning c then [] else [solve_response current result move]), mv)
          end
      end
  end.

End SolveCmd.

(** ** The solver on the concrete Gomoku board *)

Module GomokuSolver.

Import Gomoku.

Definition alphabeta (b : GoBoard) (alpha beta : Z) (tt : TT) (depth depthLimit : nat) :=
  alphabeta_root get_empty_points current_player play_move undoMove endOfGame
    staticallyEvaluateForToPlay hash b alpha beta tt depth INFINITY depthLimit.

Definition order (b : GoBoard) :=
  orderMoves get_empty_points current_player play_move undoMove staticallyEvaluateForToPlay b.

Definition deepen (b : GoBoard) (tt : TT) :=
  iterativeDeepening get_empty_points current_player play_move undoMove endOfGame
    staticallyEvaluateForToPlay hash b tt.

Definition deepen_logged (b : GoBoard) (tt : TT) :=
  iterativeDeepening_gen
    (logged (search_ab get_empty_points current_player play_move undoMove endOfGame
               staticallyEvaluateForToPlay hash))
    (length (get_empty_points b)) ((b, tt), []).

Definition solve (c : Conn) (t_update t_done : nat) :=
  solve_cmd get_empty_points current_player play_move undoMove endOfGame
    staticallyEvaluateForToPlay hash board_size c t_update t_done.

(** A table holding [score] for the fingerprint of [b]. *)
Definition tt_with (b : GoBoard) (score : Z) : TT := mkTT {[hash b := score]} ∅.

(** Black has four in a row on the first row, E1 completes it; Black to play. *)
Definition four_black : GoBoard :=
  setup 5 [(1, 1); (1, 2); (1, 3); (1, 4)] [(3, 1); (3, 2); (3, 3); (5, 5)] BLACK.

(** Black has five in a row on the first row; White to play. *)
Definition five_black : GoBoard :=
  setup 5 [(1, 1); (1, 2); (1, 3); (1, 4); (1, 5)] [(3, 1); (3, 2); (3, 3); (5, 5)] WHITE.

End GomokuSolver.

(** ** The GTP command loop *)

(** Python's character classes, on the characters of code point below 256
    (Latin-1): [str.isspace], [str.isdigit], and the [\d] of [re]. *)
Definition py_isspace (c : ascii) : bool :=
  let n := nat_of_ascii c in
  ((9 <=? n) && (n <=? 13))%nat || ((28 <=? n) && (n <=? 32))%nat ||
  (n =? 133)%nat || (n =? 160)%nat.

Definition py_isdigit (c : ascii) : bool :=
  let n := nat_of_ascii c in
  ((48 <=? n) && (n <=? 57))%nat || (n =? 178)%nat || (n =? 179)%nat || (n =? 185)%nat.

Definition re_digit (c : ascii) : bool :=
  let n := nat_of_ascii c in ((48 <=? n) && (n <=? 57))%nat.

(** [s.lstrip(chars)], the characters given by [p]. *)
Fixpoint lstrip_by (p : ascii -> bool) (l : list ascii) : list ascii :=
  match l with
  | c :: r => if p c then lstrip_by p r else l
  | [] => []
  end.

(** [s.strip(chars)]. *)
Definition strip_by (p : ascii -> bool) (l : list ascii) : list ascii :=
  rev (lstrip_by p (rev (lstrip_by p l))).

(** [s.split()]: the maximal runs of non-whitespace characters; [cur] is
    the run being read, reversed. *)
Fixpoint split_go (l : list ascii) (cur : list ascii) : list (list ascii) :=
  match l with
  | [] => match cur with [] => [] | _ => [rev cur] end
  | c :: r =>
      if py_isspace c
      then match cur with [] => split_go r [] | _ => rev cur :: split_go r [] end
      else split_go r (c :: cur)
  end.

Definition py_split (s : string) : list string :=
  map string_of_list_ascii (split_go (list_ascii_of_string s) []).

Definition chr (n : nat) : ascii := ascii_of_nat n.

Definition newline : string := String (chr 10) EmptyString.

(** [respond(response)] and [error(error_msg)]: the text each writes to
    standard output. *)
Definition respond (response : string) : string :=
  ("= " ++ response ++ newline ++ newline)%string.

Definition error (error_msg : string) : string :=
  ("? " ++ error_msg ++ newline ++ newline)%string.

(** The keys of [self.commands], in the dictionary's order. *)
Definition commands : list string :=
  ["protocol_version"; "quit"; "name"; "boardsize"; "showboard"; "clear_board";
   "komi"; "version"; "known_command"; "genmove"; "list_commands"; "play";
   "legal_moves"; "gogui-rules_game_id"; "gogui-rules_board_size";
   "gogui-rules_legal_moves"; "gogui-rules_side_to_move"; "gogui-rules_board";
   "gogui-rules_final_result"; "gogui-analyze_commands"; "timelimit"; "solve"]%string.

(** [self.argmap]: the required number of arguments and the usage message. *)
Definition argmap : list (string * (nat * string)) :=
  [("boardsize", (1%nat, "Usage: boardsize INT"));
   ("komi", (1%nat, "Usage: komi FLOAT"));
   ("known_command", (1%nat, "Usage: known_command CMD_NAME"));
   ("genmove", (1%nat, "Usage: genmove {w,b}"));
   ("play", (2%nat, "Usage: play {b,w} MOVE"));
   ("legal_moves", (1%nat, "Usage: legal_moves {w,b}"))]%string.

Fixpoint assoc {A : Type} (k : string) (l : list (string * A)) : option A :=
  match l with
  | (k', v) :: r => if String.eqb k k' then Some v else assoc k r
  | [] => None
  end.

(** [has_arg_error(cmd, argnum)]: its result, and what it writes. *)
Definition has_arg_error (cmd : string) (argnum : nat) : bool * list string :=
  match assoc cmd argmap with
  | Some (n, msg) => if negb (Nat.eqb n argnum) then (true, [error msg]) else (false, [])
  | None => (false, [])
  end.

(** [get_cmd(command)]: the text written to standard output, and the
    handler [self.commands[command_name]] called with its arguments, if
    any.  Writes to standard error (debug mode only) are left out. *)
Definition get_cmd (command : string) : list string * option (string * list string) :=
  let l := list_ascii_of_string command in
  match strip_by (fun c => existsb (Ascii.eqb c) [chr 32; chr 13; chr 9]) l with
  | [] => ([], None)
  | _ =>
    match l with
    | [] => ([], None)
    | c :: _ =>
      if Ascii.eqb c "#"%char then ([], None)
      else
        let l := if py_isdigit c then lstrip_by py_isspace (lstrip_by re_digit l) else l in
        match py_split (string_of_list_ascii l) with
        | [] => ([], None)
        | command_name :: args =>
            let '(err, out) := has_arg_error command_name (length args) in
            if err then (out, None)
            else if existsb (String.eqb command_name) commands
                 then ([], Some (command_name, args))
                 else ([error "Unknown command"], None)
        end
    end
  end.

(** [color_to_int(c)]; [None] is the [KeyError] it raises. *)
Definition color_to_int (c : string) : option Z :=
  if String.eqb c "b" then Some BLACK
  else if String.eqb c "w" then Some WHITE
  else if String.eqb c "e" then Some EMPTY
  else if String.eqb c "BORDER" then Some BORDER
  else None.

(** [time_limit_cmd(args)]: the new [self.time], and the text written. *)
Definition time_limit_cmd (args : list string) : result (Z * string) :=
  match args with
  | [] => Raise IndexError
  | a :: _ => match py_int a with
              | Ok t => Ok (t, respond "")
              | Raise e => Raise e
              end
  end.

(** ** Listing the legal moves *)

(** Python's order on strings: by code points, a prefix first. *)
Fixpoint str_ltb (a b : list ascii) : bool :=
  match a, b with
  | _, [] => false
  | [], _ :: _ => true
  | x :: a', y :: b' =>
      if (nat_of_ascii x <? nat_of_ascii y)%nat then true
      else if (nat_of_ascii y <? nat_of_ascii x)%nat then false
      else str_ltb a' b'
  end.

Fixpoint insert_sorted (x : string) (l : list string) : list string :=
  match l with
  | [] => [x]
  | y :: r => if str_ltb (list_ascii_of_string x) (list_ascii_of_string y)
              then x :: l else y :: insert_sorted x r
  end.

(** [list.sort()] on strings (stable; equal strings are identical). *)
Definition py_sort (l : list string) : list string :=
  fold_left (fun acc x => insert_sorted x acc) l [].

Section LegalMoves.

Context {Board : Type}.
Variable detect_five_in_a_row : Board -> Z.
Variable get_empty_points : Board -> list Z.
Variable size : Board -> Z.

(** The loop [output.append(format_point(point_to_coord(move, size)))]:
    the first [format_point] that raises ends it. *)
Fixpoint format_points (ms : list Z) (boardsize : Z) : result (list string) :=
  match ms with
  | [] => Ok []
  | m :: r =>
      match format_point MAXSIZE (point_to_coord (Some m) boardsize) with
      | Raise e => Raise e
      | Ok s => match format_points r boardsize with
                | Raise e => Raise e
                | Ok l => Ok (s :: l)
                end
      end
  end.

(** [gogui_rules_legal_moves_cmd]: the text it writes. *)
Definition gogui_rules_legal_moves_cmd (b : Board) : result string :=
  if negb (detect_five_in_a_row b =? EMPTY) then Ok (respond "")
  else
    match format_points (get_empty_points b) (size b) with
    | Raise e => Raise e
    | Ok output =>
        let output := py_sort output in
        let output_str := fold_left (fun acc i => (acc ++ i ++ " ")%string) output ""%string in
        Ok (respond (lower output_str))
    end.

End LegalMoves.

(** [a] comes before [b] in the enumeration [l]. *)
Definition before {A : Type} (l : list A) (a b : A) : Prop :=
  exists k1 k2 k3, l = k1 ++ a :: k2 ++ b :: k3.

(** The order [orderMoves] sorts by: higher heuristic first, and among
    equal heuristics the move enumerated later in [P] first. *)
Definition rev_stable (P : list Z) (x y : Z * Z) : Prop :=
  snd y < snd x \/ (snd y = snd x /\ before P (fst y) (fst x)).

(** ** The boolean solver and the plain searcher *)

(** [negamaxBoolean], [solveForColor] and [alphabeta] are not called by
    the commands.  Their values are Python values: at a finished game
    [negamaxBoolean] returns the integer evaluation, elsewhere [True] or
    [False]; both are integers here ([True] = 1, [False] = 0), and
    truthiness is [<> 0].  Each returns its result, the board it leaves,
    and the pairs [print(move, moveDepth)] writes.  [fuel] bounds the
    recursion; [None] is its exhaustion. *)
Section PlainSolvers.

Context {Board : Type}.
Variable get_empty_points : Board -> list Z.
Variable current_player : Board -> Z.
Variable play_move : Board -> Z -> Z -> Board.
Variable undoMove : Board -> Board.
Variable endOfGame : Board -> bool.
Variable staticallyEvaluateForToPlay : Board -> Z.
Variable drawWinner : Board -> Z.
Variable set_drawWinner : Board -> Z -> Board.

(** The [for m in state.get_empty_points()] loop of [negamaxBoolean];
    [child st md] is [negamaxBoolean(state, depth + 1, md)]. *)
Fixpoint nb_loop (child : Board -> Z -> option (Z * Z * Board * list (Z * Z)))
    (ms : list Z) (state : Board) (depth moveDepth move : Z) (out : list (Z * Z))
    : option (Z * Z * Board * list (Z * Z)) :=
  match ms with
  | [] => Some (0, move, state, out)
  | m :: rest =>
      let state := play_move state m (current_player state) in
      match child state moveDepth with
      | None => None
      | Some (v, _, state, out1) =>
          let success := v =? 0 in
          let state := undoMove state in
          let out := out ++ out1 in
          if success then
            if moveDepth >? depth then Some (1, m, state, out ++ [(m, depth)])
            else Some (1, move, state, out)
          else nb_loop child rest state depth moveDepth move out
      end
  end.

Fixpoint negamaxBoolean (fuel : nat) (state : Board) (depth moveDepth : Z)
    : option (Z * Z * Board * list (Z * Z)) :=
  let move := -1 in
  if endOfGame state then Some (staticallyEvaluateForToPlay state, move, state, [])
  else
    match fuel with
    | O => None
    | S fuel' =>
        nb_loop (fun st md => negamaxBoolean fuel' st (depth + 1) md)
          (get_empty_points state) state depth moveDepth move []
    end.

(** [solveForColor(state, color)]: [state.drawWinner] is read with
    [drawWinner] and assigned with [set_drawWinner]. *)
Definition solveForColor (fuel : nat) (state : Board) (color : Z)
    : option (Z * Z * Board * list (Z * Z)) :=
  let saveOldDrawWinner := drawWinner state in
  let state := set_drawWinner state (opponent color) in
  let toPlayColor := current_player state in
  match negamaxBoolean fuel state 0 INFINITY with
  | None => None
  | Some (winForToPlay, move, state, out1) =>
      if negb (winForToPlay =? 0) && (toPlayColor =? color) then Some (1, move, state, out1)
      else if negb (winForToPlay =? 0) && negb (toPlayColor =? color)
      then Some (-1, move, state, out1)
      else
        let state := set_drawWinner state saveOldDrawWinner in
        match negamaxBoolean fuel state 0 INFINITY with
        | None => None
        | Some (drawForToPlay, move, state, out2) =>
            if negb (drawForToPlay =? 0) then Some (0, move, state, out1 ++ out2)
            else Some (-1, move, state, out1 ++ out2)
        end
  end.

(** The [for m in state.get_empty_points()] loop of [alphabeta]; [child st
    a b md] is [alphabeta(state, a, b, depth + 1, md)]. *)
Fixpoint pab_loop (child : Board -> Z -> Z -> Z -> option (Z * Z * Board * list (Z * Z)))
    (ms : list Z) (state : Board) (alpha beta depth moveDepth move : Z)
    (out : list (Z * Z)) : option (Z * Z * Board * list (Z * Z)) :=
  match ms with
  | [] => Some (alpha, move, state, out)
  | m :: rest =>
      let state := play_move state m (current_player state) in
      match child state (- beta) (- alpha) moveDepth with
      | None => None
      | Some (v, _, state, out1) =>
          let value := - v in
          let out := out ++ out1 in
          let '(moveDepth, move, out, alpha) :=
            if value >? alpha then
              if moveDepth >? depth then (depth, m, out ++ [(m, depth)], value)
              else (moveDepth, move, out, value)
            else (moveDepth, move, out, alpha) in
          let state := undoMove state in
          if value >=? beta then Some (beta, move, state, out)
          else pab_loop child rest state alpha beta depth moveDepth move out
      end
  end.

Fixpoint alphabeta (fuel : nat) (state : Board) (alpha beta depth moveDepth : Z)
    : option (Z * Z * Board * list (Z * Z)) :=
  let move := -1 in
  if endOfGame state then Some (staticallyEvaluateForToPlay state, -1, state, [])
  else
    match fuel with
    | O => None
    | S fuel' =>
        pab_loop (fun st a b md => alphabeta fuel' st a b (depth + 1) md)
          (get_empty_points state) state alpha beta depth moveDepth move []
    end.

End PlainSolvers.

(** The Gomoku board with its [drawWinner] field, for running the boolean
    solver; play and undo leave the field as it is. *)
Module GomokuDraw.

Record DBoard := mkDBoard { gboard : Gomoku.GoBoard; drawWinner : Z }.

Definition lift {A} (f : Gomoku.GoBoard -> A) (b : DBoard) : A := f (gboard b).

Definition play_move (b : DBoard) (p c : Z) : DBoard :=
  mkDBoard (Gomoku.play_move (gboard b) p c) (drawWinner b).

Definition undoMove (b : DBoard) : DBoard :=
  mkDBoard (Gomoku.undoMove (gboard b)) (drawWinner b).

Definition set_drawWinner (b : DBoard) (c : Z) : DBoard := mkDBoard (gboard b) c.

Definition negamaxBoolean (fuel : nat) (b : DBoard) (depth moveDepth : Z) :=
  negamaxBoolean (lift Gomoku.get_empty_points) (lift Gomoku.current_player) play_move
    undoMove (lift Gomoku.endOfGame) (lift Gomoku.staticallyEvaluateForToPlay)
    fuel b depth moveDepth.

Definition solveForColor (fuel : nat) (b : DBoard) (color : Z) :=
  solveForColor (lift Gomoku.get_empty_points) (lift Gomoku.current_player) play_move
    undoMove (lift Gomoku.endOfGame) (lift Gomoku.staticallyEvaluateForToPlay)
    drawWinner set_drawWinner fuel b color.

Definition alphabeta (fuel : nat) (b : DBoard) (alpha beta depth moveDepth : Z) :=
  alphabeta (lift Gomoku.get_empty_points) (lift Gomoku.current_player) play_move
    undoMove (lift Gomoku.endOfGame) (lift Gomoku.staticallyEvaluateForToPlay)
    fuel b alpha beta depth moveDepth.

(** The 5x5 board with the five empty points 11, 17, 23, 29, 35 (the last
    column) and no five in a row: Black completes the first row at 11. *)
Definition near_full (toPlay : Z) : DBoard :=
  mkDBoard (Gomoku.setup 5
    [(1,1);(1,2);(1,3);(1,4);(2,2);(3,1);(3,3);(4,2);(4,4);(5,3)]
    [(2,1);(2,3);(2,4);(3,2);(3,4);(4,1);(4,3);(5,1);(5,2);(5,4)] toPlay) 7.

(** The 5x5 board with one black and one white stone. *)
Definition two_stones : Gomoku.GoBoard := Gomoku.setup 5 [(1, 1)] [(2, 2)] BLACK.

End GomokuDraw.

(** * Properties *)

(** ** The iterative deepening driver *)

Section DriverProofs.

Context {St : Type}.
Variable search : St -> Z -> Z -> nat -> Z -> nat -> Z * St.

Lemma id_loop_logged (k d : nat) (res : Z) (st : St) (log0 : list call) :
  let '(r, (_, log)) := id_loop (logged search) k d res (st, log0) in
  exists newlog, log = log0 ++ newlog /\
    map call_limit newlog = seq d (length newlog) /\
    Forall (fun c => call_alpha c = - INFINITY /\ call_beta c = INFINITY /\
                     call_depth c = 0%nat) newlog /\
    (length newlog <= k)%nat /\
    ((newlog = [] /\ k = 0%nat /\ r = res) \/
     (exists init c, newlog = init ++ [c] /\
        Forall (fun c => decisive (call_value c) = false) init /\
        r = call_value c /\
        (decisive (call_value c) = true \/ length newlog = k))).
Proof.
  revert d res st log0.
  induction k as [|k IH]; intros d res st log0; cbn [id_loop].
  - exists []. rewrite app_nil_r. repeat split; auto.
  - unfold logged at 1.
    destruct (search st (- INFINITY) INFINITY 0 INFINITY d) as [r1 st1] eqn:E.
    set (c := mkCall (- INFINITY) INFINITY 0 d r1).
    destruct (decisive r1) eqn:Hd.
    + exists [c]. repeat split; cbn; auto; try lia.
      right. exists [], c. repeat split; auto.
    + specialize (IH (S d) r1 st1 (log0 ++ [c])).
      destruct (id_loop (logged search) k (S d) r1 (st1, log0 ++ [c])) as [r [st' log]].
      destruct IH as [nl [Hlog [Hlim [Hfull [Hlen Hcase]]]]].
      exists (c :: nl). split; [rewrite Hlog, <- app_assoc; reflexivity|].
      split; [cbn; now rewrite Hlim|].
      split; [constructor; [cbn; auto|exact Hfull]|].
      split; [cbn; lia|].
      right. destruct Hcase as [[-> [-> ->]] | [init [c' [-> [Hinit [Hr Hend]]]]]].
      * exists [], c. repeat split; auto.
      * exists (c :: init), c'. repeat split; auto.
        destruct Hend as [Hend|Hend]; [left; exact Hend|right; cbn in *; lia].
Qed.

Lemma id_loop_logged_erase (k d : nat) (res : Z) (st : St) (log0 : list call) :
  let '(r, (st', _)) := id_loop (logged search) k d res (st, log0) in
  id_loop search k d res st = (r, st').
Proof.
  revert d res st log0.
  induction k as [|k IH]; intros d res st log0; cbn [id_loop]; [reflexivity|].
  unfold logged at 1.
  destruct (search st (- INFINITY) INFINITY 0 INFINITY d) as [r1 st1] eqn:E.
  destruct (decisive r1); [reflexivity|].
  apply IH.
Qed.

End DriverProofs.

Section DriverClaims.

Context {Board : Type}.
Variable get_empty_points : Board -> list Z.
Variable current_player : Board -> Z.
Variable play_move : Board -> Z -> Z -> Board.
Variable undoMove : Board -> Board.
Variable endOfGame : Board -> bool.
Variable staticallyEvaluateForToPlay : Board -> Z.
Variable hash : Board -> Z.

Local Abbreviation search := (search_ab get_empty_points current_player play_move undoMove
                      endOfGame staticallyEvaluateForToPlay hash).

(** C1: for every starting state (board and table), the driver calls the
    Alpha-Beta Searcher with the full window (−∞, +∞), depth 0 and the
    depth limits 1, 2, ..., k in this order, where k is at most the number
    n of empty points; no call but the last returned a decisive value (±5);
    the last call is decisive or has limit n; and the driver returns the
    value of the last call (the initial 1 when n = 0 and nothing was
    called).  The calls are those of the unlogged run. *)
Theorem iterativeDeepening_calls (board : Board) (tt : TT) :
  let n := length (get_empty_points board) in
  let '(r, (st', log)) := iterativeDeepening_gen (logged search) n ((board, tt), []) in
  iterativeDeepening get_empty_points current_player play_move undoMove endOfGame
    staticallyEvaluateForToPlay hash board tt = (r, st') /\
  map call_limit log = seq 1 (length log) /\
  Forall (fun c => call_alpha c = - INFINITY /\ call_beta c = INFINITY /\
                   call_depth c = 0%nat) log /\
  (length log <= n)%nat /\
  ((log = [] /\ n = 0%nat /\ r = 1) \/
   (exists init c, log = init ++ [c] /\
      Forall (fun c => decisive (call_value c) = false) init /\
      r = call_value c /\
      (decisive (call_value c) = true \/ length log = n))).
Proof.
  cbn zeta. unfold iterativeDeepening, iterativeDeepening_gen.
  pose proof (id_loop_logged search (length (get_empty_points board)) 1 1 (board, tt) [])
    as Hlog.
  pose proof (id_loop_logged_erase search (length (get_empty_points board)) 1 1
                (board, tt) []) as Herase.
  destruct (id_loop (logged search) (length (get_empty_points board)) 1 1 ((board, tt), []))
    as [r [st' log]].
  destruct Hlog as [nl [Hl Hrest]]. cbn in Hl. subst log.
  split; [exact Herase|exact Hrest].
Qed.

End DriverClaims.

(** ** The move orderer and the searcher *)

Section SearchProofs.

Context {Board : Type}.
Variable get_empty_points : Board -> list Z.
Variable current_player : Board -> Z.
Variable play_move : Board -> Z -> Z -> Board.
Variable undoMove : Board -> Board.
Variable endOfGame : Board -> bool.
Variable staticallyEvaluateForToPlay : Board -> Z.
Variable hash : Board -> Z.

Local Abbreviation orderMoves := (orderMoves get_empty_points current_player play_move
                                undoMove staticallyEvaluateForToPlay).
Local Abbreviation orderMoves_loop := (orderMoves_loop current_player play_move
                                undoMove staticallyEvaluateForToPlay).
Local Abbreviation ab_loop := (ab_loop current_player play_move undoMove hash).
Local Abbreviation alphabeta_tt := (alphabeta_tt get_empty_points current_player play_move
                                undoMove endOfGame staticallyEvaluateForToPlay hash).

Lemma insert_ordered_perm (l : list (Z * Z)) (m h : Z) :
  Permutation (insert_ordered l m h) (l ++ [(m, h)]).
Proof.
  unfold insert_ordered.
  destruct (0 <? length l)%nat; [|reflexivity].
  destruct (length l <=? find_index l h)%nat; [reflexivity|].
  set (i := find_index l h).
  assert (Hp : Permutation (firstn i l ++ (m, h) :: skipn i l)
                 ((firstn i l ++ skipn i l) ++ [(m, h)])).
  { rewrite <- app_assoc. apply Permutation_app_head. apply Permutation_cons_append. }
  now rewrite firstn_skipn in Hp.
Qed.

Lemma orderMoves_loop_perm (ms : list Z) (s : Board) (acc : list (Z * Z)) :
  Permutation (map fst (fst (orderMoves_loop ms s acc))) (map fst acc ++ ms).
Proof.
  revert s acc. induction ms as [|m ms IH]; intros s acc; cbn.
  - now rewrite app_nil_r.
  - rewrite IH. rewrite (insert_ordered_perm acc m).
    rewrite map_app, <- app_assoc. reflexivity.
Qed.

Lemma orderMoves_perm (s : Board) :
  Permutation (map fst (fst (orderMoves s))) (get_empty_points s).
Proof. unfold orderMoves. apply orderMoves_loop_perm. Qed.

(** The board's apply/undo contract (spec §6): undoing a move just played
    on an empty point gives back the board. *)
Hypothesis undo_play : forall (s : Board) (m : Z),
  In m (get_empty_points s) -> undoMove (play_move s m (current_player s)) = s.

Lemma orderMoves_loop_restores (ms : list Z) (s : Board) (acc : list (Z * Z)) :
  (forall m, In m ms -> In m (get_empty_points s)) ->
  snd (orderMoves_loop ms s acc) = s.
Proof.
  revert acc. induction ms as [|m ms IH]; intros acc Hin; cbn; [reflexivity|].
  rewrite undo_play by (apply Hin; now left).
  apply IH. intros x Hx. apply Hin. now right.
Qed.

Lemma orderMoves_restores (s : Board) : snd (orderMoves s) = s.
Proof. unfold orderMoves. now apply orderMoves_loop_restores. Qed.

Lemma ab_loop_restores (child : Board -> Z -> Z -> TT -> Z * Board * TT)
    (Hchild : forall s a b t, snd (fst (child s a b t)) = s)
    (ms : list (Z * Z)) (s : Board) (alpha beta : Z) (tt : TT) :
  (forall m h, In (m, h) ms -> In m (get_empty_points s)) ->
  snd (fst (ab_loop child ms s alpha beta tt)) = s.
Proof.
  revert alpha tt. induction ms as [|[m h] ms IH]; intros alpha tt Hin; cbn; [reflexivity|].
  specialize (Hchild (play_move s m (current_player s)) (- beta) (- alpha) tt).
  destruct (child (play_move s m (current_player s)) (- beta) (- alpha) tt)
    as [[v s1] tt1]. cbn in Hchild. subst s1.
  rewrite undo_play by (eapply Hin; now left).
  destruct (- v >? alpha); cbn;
    [destruct ((- v =? 0) || (- v =? 5))|]; cbn;
    (destruct (- v >=? beta); [reflexivity|]);
    apply IH; intros x y Hx; eapply Hin; right; exact Hx.
Qed.

Lemma alphabeta_tt_restores (fuel : nat) (s : Board) (alpha beta : Z) (tt : TT)
    (depth : nat) (depthMove : Z) (depthLimit : nat) :
  snd (fst (alphabeta_tt fuel s alpha beta tt depth depthMove depthLimit)) = s.
Proof.
  revert s alpha beta tt depth.
  induction fuel as [|fuel IH]; intros s alpha beta tt depth; cbn.
  - destruct (proven_entry _); [reflexivity|].
    destruct (endOfGame s || Nat.eqb depth depthLimit); reflexivity.
  - destruct (proven_entry _); [reflexivity|].
    destruct (endOfGame s || Nat.eqb depth depthLimit); [reflexivity|].
    pose proof (orderMoves_restores s) as Hr.
    pose proof (orderMoves_perm s) as Hp.
    destruct (orderMoves s) as [ms s0]. cbn in Hr, Hp. subst s0.
    apply ab_loop_restores.
    + intros. apply IH.
    + intros m h Hin. eapply Permutation_in; [exact Hp|].
      apply in_map_iff. exists (m, h). auto.
Qed.

End SearchProofs.

(** ** Ordering of the candidates *)

Section OrderProofs.

Context {A : Type}.
Variable R : A -> A -> Prop.

Lemma SS_app_inv (l1 l2 : list A) :
  StronglySorted R (l1 ++ l2) ->
  StronglySorted R l1 /\ StronglySorted R l2 /\ Forall (fun a => Forall (R a) l2) l1.
Proof.
  induction l1 as [|a l1 IH]; cbn; intros H.
  - repeat split; auto. constructor.
  - apply StronglySorted_inv in H as [H1 H2].
    destruct (IH H1) as [Ha [Hb Hc]].
    apply Forall_app in H2 as [H2a H2b].
    repeat split; auto. constructor; auto.
Qed.

Lemma SS_app (l1 l2 : list A) :
  StronglySorted R l1 -> StronglySorted R l2 -> Forall (fun a => Forall (R a) l2) l1 ->
  StronglySorted R (l1 ++ l2).
Proof.
  induction l1 as [|a l1 IH]; cbn; intros H1 H2 H3; auto.
  apply StronglySorted_inv in H1 as [H1a H1b]. inversion H3; subst.
  constructor; auto. apply Forall_app. auto.
Qed.

Lemma SS_impl (R' : A -> A -> Prop) (l : list A) :
  (forall x y, R x y -> R' x y) -> StronglySorted R l -> StronglySorted R' l.
Proof.
  intros HR H. induction H; constructor; auto.
  eapply Forall_impl; [eassumption|]. auto.
Qed.

End OrderProofs.

Lemma before_app {A : Type} (l : list A) (a b c : A) :
  before l a b -> before (l ++ [c]) a b.
Proof.
  intros (k1 & k2 & k3 & ->). exists k1, k2, (k3 ++ [c]).
  rewrite <- app_assoc. cbn. rewrite <- app_assoc. reflexivity.
Qed.

Lemma before_last {A : Type} (l : list A) (a c : A) :
  In a l -> before (l ++ [c]) a c.
Proof.
  intros Ha. apply in_split in Ha as (k1 & k2 & ->).
  exists k1, k2, []. rewrite <- app_assoc. reflexivity.
Qed.

Lemma find_index_spec (l : list (Z * Z)) (h : Z) :
  Forall (fun p => h < snd p) (firstn (find_index l h) l) /\
  match skipn (find_index l h) l with p :: _ => snd p <= h | [] => True end.
Proof.
  induction l as [|[m h'] l IH]; cbn; [auto|].
  destruct (Z.gtb_spec h' h); cbn.
  - destruct IH as [IH1 IH2]. split; [constructor; [cbn; lia|exact IH1]|exact IH2].
  - split; [constructor|cbn; lia].
Qed.

Lemma insert_ordered_split (l : list (Z * Z)) (m h : Z) :
  insert_ordered l m h =
  firstn (find_index l h) l ++ (m, h) :: skipn (find_index l h) l.
Proof.
  unfold insert_ordered.
  destruct (Nat.ltb_spec 0 (length l)).
  - destruct (Nat.leb_spec (length l) (find_index l h)); [|reflexivity].
    rewrite firstn_all2, skipn_all2 by lia. reflexivity.
  - destruct l; [reflexivity|cbn in *; lia].
Qed.

Lemma insert_ordered_sorted (P : list Z) (acc : list (Z * Z)) (m h : Z) :
  StronglySorted (rev_stable P) acc ->
  Forall (fun p => In (fst p) P) acc ->
  StronglySorted (rev_stable (P ++ [m])) (insert_ordered acc m h).
Proof.
  intros Hs Hin. rewrite insert_ordered_split.
  destruct (find_index_spec acc h) as [Hlt Hge].
  rewrite <- (firstn_skipn (find_index acc h) acc) in Hs, Hin.
  set (A1 := firstn (find_index acc h) acc) in *.
  set (A2 := skipn (find_index acc h) acc) in *.
  assert (HR : forall x y, rev_stable P x y -> rev_stable (P ++ [m]) x y).
  { intros x y [H|[H1 H2]]; [left; exact H|right; split; auto using before_app]. }
  apply (SS_impl _ (rev_stable (P ++ [m]))) in Hs; [|exact HR].
  apply SS_app_inv in Hs as [Hs1 [Hs2 Hs12]].
  apply Forall_app in Hin as [Hin1 Hin2].
  (* every entry after the insertion point has heuristic <= h *)
  assert (Hle : Forall (fun p => snd p <= h) A2).
  { destruct A2 as [|p A2']; [constructor|].
    apply StronglySorted_inv in Hs2 as [_ Hp]. constructor; [exact Hge|].
    eapply Forall_impl; [exact Hp|].
    intros y [Hy|[Hy _]]; cbn in Hge; lia. }
  apply SS_app; auto.
  - constructor; auto.
    apply Forall_forall. intros y Hy.
    pose proof (proj1 (Forall_forall _ _) Hle y Hy) as Hyh. cbn in Hyh.
    pose proof (proj1 (Forall_forall _ _) Hin2 y Hy) as HyP.
    destruct (Z.eq_dec (snd y) h) as [E|E].
    + right. split; [exact E|]. apply before_last. exact HyP.
    + left. cbn. unfold EMPTY in *. lia.
  - apply Forall_forall. intros x Hx.
    pose proof (proj1 (Forall_forall _ _) Hlt x Hx) as Hxh. cbn in Hxh.
    pose proof (proj1 (Forall_forall _ _) Hs12 x Hx) as Hx2.
    constructor; [left; cbn; lia|exact Hx2].
Qed.

Section OrderMovesClaims.

Context {Board : Type}.
Variable get_empty_points : Board -> list Z.
Variable current_player : Board -> Z.
Variable play_move : Board -> Z -> Z -> Board.
Variable undoMove : Board -> Board.
Variable staticallyEvaluateForToPlay : Board -> Z.

Local Abbreviation orderMoves_loop := (orderMoves_loop current_player play_move
                                undoMove staticallyEvaluateForToPlay).

Hypothesis undo_play : forall (s : Board) (m : Z),
  In m (get_empty_points s) -> undoMove (play_move s m (current_player s)) = s.

Lemma Forall_perm_in {X : Type} (P : X -> Prop) (l l' : list X) :
  Permutation l l' -> Forall P l' -> Forall P l.
Proof.
  intros Hp H. apply List.Forall_forall. intros x Hx.
  apply (proj1 (List.Forall_forall _ _) H). eapply Permutation_in; eauto.
Qed.

Lemma orderMoves_loop_spec (ms P : list Z) (s : Board) (acc : list (Z * Z)) :
  (forall m, In m ms -> In m (get_empty_points s)) ->
  StronglySorted (rev_stable P) acc ->
  Forall (fun p => In (fst p) P) acc ->
  Forall (fun p => snd p = staticallyEvaluateForToPlay
                             (play_move s (fst p) (current_player s))) acc ->
  let out := fst (orderMoves_loop ms s acc) in
  StronglySorted (rev_stable (P ++ ms)) out /\
  Forall (fun p => In (fst p) (P ++ ms)) out /\
  Forall (fun p => snd p = staticallyEvaluateForToPlay
                             (play_move s (fst p) (current_player s))) out.
Proof.
  revert P acc. induction ms as [|m ms IH]; intros P acc Hms Hs Hin Hh; cbn.
  - rewrite app_nil_r. auto.
  - rewrite undo_play by (apply Hms; now left).
    set (h := staticallyEvaluateForToPlay (play_move s m (current_player s))).
    replace (P ++ m :: ms) with ((P ++ [m]) ++ ms) by (rewrite <- app_assoc; reflexivity).
    apply IH.
    + intros x Hx. apply Hms. now right.
    + now apply insert_ordered_sorted.
    + eapply Forall_perm_in; [apply insert_ordered_perm|].
      apply Forall_app. split.
      * eapply Forall_impl; [exact Hin|]. intros p Hp. apply in_or_app. now left.
      * constructor; [cbn; apply in_or_app; right; now left|constructor].
    + eapply Forall_perm_in; [apply insert_ordered_perm|].
      apply Forall_app. split; [exact Hh|]. constructor; [reflexivity|constructor].
Qed.

(** C5 (as amended): the Move Orderer returns every empty point once,
    each with the static evaluation of the child position (the move
    played, evaluated for the side to move there), sorted by descending
    evaluation; among equal evaluations the move enumerated later comes
    first. *)
Theorem orderMoves_sorted (s : Board) :
  let out := fst (orderMoves get_empty_points current_player play_move undoMove
                    staticallyEvaluateForToPlay s) in
  Permutation (map fst out) (get_empty_points s) /\
  Forall (fun p => snd p = staticallyEvaluateForToPlay
                             (play_move s (fst p) (current_player s))) out /\
  StronglySorted (rev_stable (get_empty_points s)) out.
Proof.
  cbn zeta. split; [apply orderMoves_perm|].
  unfold orderMoves.
  destruct (orderMoves_loop_spec (get_empty_points s) [] s []) as [Hs [_ Hh]].
  - exact (fun m Hm => Hm).
  - constructor.
  - constructor.
  - constructor.
  - split; assumption.
Qed.

End OrderMovesClaims.

Section SearchClaims.

Context {Board : Type}.
Variable get_empty_points : Board -> list Z.
Variable current_player : Board -> Z.
Variable play_move : Board -> Z -> Z -> Board.
Variable undoMove : Board -> Board.
Variable endOfGame : Board -> bool.
Variable staticallyEvaluateForToPlay : Board -> Z.
Variable hash : Board -> Z.

Local Abbreviation orderMoves := (orderMoves get_empty_points current_player play_move
                                undoMove staticallyEvaluateForToPlay).
Local Abbreviation loop := (ab_loop current_player play_move undoMove hash).
Local Abbreviation alphabeta_tt := (alphabeta_tt get_empty_points current_player play_move
                                undoMove endOfGame staticallyEvaluateForToPlay hash).

(** C4: one step of the loop over the ordered candidates.  The child
    position is searched with the window (−beta, −alpha) and its value is
    negated.  When the negated value reaches beta, the loop returns beta,
    the table records beta as this node's score (after the best move the
    step may have recorded), and the remaining siblings play no part: any
    other list of siblings gives the same result.  Otherwise the loop goes
    on with alpha raised to the negated value. *)
Theorem ab_loop_beta_cutoff (fuel depth : nat) (depthMove : Z) (depthLimit : nat)
    (m h : Z) (rest : list (Z * Z)) (s : Board) (alpha beta : Z) (tt : TT)
    (v : Z) (s1 : Board) (tt1 : TT) :
  let child := fun st a b t => alphabeta_tt fuel st a b t (S depth) depthMove depthLimit in
  child (play_move s m (current_player s)) (- beta) (- alpha) tt = (v, s1, tt1) ->
  (beta <= - v ->
     (forall rest', loop child ((m, h) :: rest) s alpha beta tt =
                    loop child ((m, h) :: rest') s alpha beta tt) /\
     exists tt2, (tt2 = tt1 \/ tt2 = storeMove hash tt1 (undoMove s1) m) /\
       loop child ((m, h) :: rest) s alpha beta tt =
         (beta, undoMove s1, storeScore hash tt2 (undoMove s1) beta) /\
       tt_scores (storeScore hash tt2 (undoMove s1) beta) !! hash (undoMove s1) = Some beta) /\
  (- v < beta ->
     loop child ((m, h) :: rest) s alpha beta tt =
     loop child rest (undoMove s1) (Z.max alpha (- v)) beta
       (if (alpha <? - v) && ((- v =? 0) || (- v =? 5))
        then storeMove hash tt1 (undoMove s1) m else tt1)).
Proof.
  intros child Hc. cbn [ab_loop]. fold child. rewrite Hc.
  split.
  - intros Hb.
    assert (Hcut : forall rest', loop child ((m, h) :: rest') s alpha beta tt =
      (beta, undoMove s1,
       storeScore hash (if (alpha <? - v) && ((- v =? 0) || (- v =? 5))
                        then storeMove hash tt1 (undoMove s1) m else tt1) (undoMove s1) beta)).
    { intros rest'. cbn [ab_loop]. fold child. rewrite Hc.
      destruct (Z.gtb_spec (- v) alpha), (Z.ltb_spec alpha (- v)); try lia;
        cbn; [destruct ((- v =? 0) || (- v =? 5))|];
        (destruct (Z.geb_spec (- v) beta); [reflexivity|lia]). }
    split.
    + intros rest'. cbn [ab_loop] in Hcut. fold child in Hcut.
      rewrite Hc in Hcut. rewrite !Hcut. reflexivity.
    + exists (if (alpha <? - v) && ((- v =? 0) || (- v =? 5))
              then storeMove hash tt1 (undoMove s1) m else tt1).
      split; [|split].
      * destruct ((alpha <? - v) && ((- v =? 0) || (- v =? 5))); [right|left]; reflexivity.
      * specialize (Hcut rest). cbn [ab_loop] in Hcut. fold child in Hcut.
        rewrite Hc in Hcut. exact Hcut.
      * unfold storeScore, tt_storeScore. cbn. apply lookup_insert_eq.
  - intros Hb.
    destruct (Z.gtb_spec (- v) alpha), (Z.ltb_spec alpha (- v)); try lia; cbn.
    + destruct ((- v =? 0) || (- v =? 5)); cbn;
        (destruct (Z.geb_spec (- v) beta); [lia|]);
        (replace (Z.max alpha (- v)) with (- v) by lia); reflexivity.
    + (destruct (Z.geb_spec (- v) beta); [lia|]).
      replace (Z.max alpha (- v)) with alpha by lia. reflexivity.
Qed.

Hypothesis undo_play : forall (s : Board) (m : Z),
  In m (get_empty_points s) -> undoMove (play_move s m (current_player s)) = s.

(** C6: every completed search leaves the board it was given (and so its
    fingerprint) as it found it, and so does the move orderer's
    apply/evaluate/undo probing. *)
Theorem alphabeta_tt_restores_board (fuel : nat) (s : Board) (alpha beta : Z) (tt : TT)
    (depth : nat) (depthMove : Z) (depthLimit : nat) :
  let s' := snd (fst (alphabeta_tt fuel s alpha beta tt depth depthMove depthLimit)) in
  s' = s /\ hash s' = hash s /\ snd (orderMoves s) = s.
Proof.
  cbn zeta.
  rewrite (alphabeta_tt_restores _ _ _ _ _ _ _ undo_play).
  split; [reflexivity|split; [reflexivity|]].
  apply (orderMoves_restores _ _ _ _ _ undo_play).
Qed.

End SearchClaims.

Section TerminalRoot.

Context {Board : Type}.
Variable get_empty_points : Board -> list Z.
Variable current_player : Board -> Z.
Variable play_move : Board -> Z -> Z -> Board.
Variable undoMove : Board -> Board.
Variable endOfGame : Board -> bool.
Variable staticallyEvaluateForToPlay : Board -> Z.
Variable hash : Board -> Z.

Local Abbreviation search := (search_ab get_empty_points current_player play_move undoMove
                      endOfGame staticallyEvaluateForToPlay hash).

Lemma alphabeta_tt_terminal (fuel : nat) (s : Board) (alpha beta : Z) (tt : TT)
    (depth : nat) (depthMove : Z) (depthLimit : nat) :
  endOfGame s = true ->
  alphabeta_tt get_empty_points current_player play_move undoMove endOfGame
    staticallyEvaluateForToPlay hash fuel s alpha beta tt depth depthMove depthLimit =
  if proven_entry (tt_lookup tt (hash s)) then (5, s, tt)
  else (staticallyEvaluateForToPlay s, s,
        storeScore hash tt s (staticallyEvaluateForToPlay s)).
Proof.
  intros He. destruct fuel; cbn; rewrite He; cbn;
    destruct (proven_entry (tt_lookup tt (hash s))); reflexivity.
Qed.

(** What the table may hold for a terminal root during the driver's run:
    no proven entry, or the root's static evaluation. *)
Lemma id_loop_terminal (board : Board) (k d : nat) (res : Z) (tt : TT) (log0 : list call) :
  endOfGame board = true ->
  proven_entry (tt_lookup tt (hash board)) = false \/
    tt_scores tt !! hash board = Some (staticallyEvaluateForToPlay board) ->
  let '(r, (st', log)) := id_loop (logged search) k d res ((board, tt), log0) in
  exists nl, log = log0 ++ nl /\ fst st' = board /\
    Forall (fun c => call_value c = staticallyEvaluateForToPlay board) nl /\
    (k = 0%nat -> nl = [] /\ r = res) /\
    ((0 < k)%nat -> nl <> [] /\ r = staticallyEvaluateForToPlay board).
Proof.
  intros He. revert d res tt log0.
  induction k as [|k IH]; intros d res tt log0 Hinv; cbn [id_loop].
  - exists []. rewrite app_nil_r. repeat split; auto; lia.
  - unfold logged at 1.
    set (e := staticallyEvaluateForToPlay board).
    assert (Hstep : exists tt', search (board, tt) (- INFINITY) INFINITY 0 INFINITY d =
                                (e, (board, tt')) /\
                                tt_scores tt' !! hash board = Some e).
    { unfold search_ab, alphabeta_root.
      rewrite alphabeta_tt_terminal by exact He.
      destruct (proven_entry (tt_lookup tt (hash board))) eqn:Hp.
      - destruct Hinv as [Hinv|Hinv]; [congruence|].
        unfold proven_entry, tt_lookup in Hp. rewrite Hinv in Hp.
        apply Z.eqb_eq in Hp. exists tt. split; [unfold e; now rewrite Hp|exact Hinv].
      - exists (storeScore hash tt board e). split; [reflexivity|].
        unfold storeScore, tt_storeScore. cbn. apply lookup_insert_eq. }
    destruct Hstep as [tt' [Hc Hs']]. rewrite Hc.
    set (c := mkCall (- INFINITY) INFINITY 0 d e).
    destruct (decisive e) eqn:Hd.
    + exists [c].
      split; [reflexivity|]. split; [reflexivity|].
      split; [constructor; [reflexivity|constructor]|].
      split; [intros; lia|]. intros _. split; [congruence|reflexivity].
    + specialize (IH (S d) e tt' (log0 ++ [c]) (or_intror Hs')).
      destruct (id_loop (logged search) k (S d) e ((board, tt'), log0 ++ [c]))
        as [r [st' log]].
      destruct IH as [nl [Hl [Hb [Hf [Hz Hpos]]]]].
      exists (c :: nl).
      split; [rewrite Hl, <- app_assoc; reflexivity|].
      split; [exact Hb|].
      split; [constructor; [reflexivity|exact Hf]|].
      split; [lia|].
      intros _. split; [congruence|].
      destruct k; [now destruct Hz|]. apply Hpos. lia.
Qed.

(** C8 (as amended): the driver has no terminal test of its own.  For a
    root that is already over ([endOfGame]) with at least one empty point
    (a five-in-a-row on a board that is not full), it does call the
    Alpha-Beta Searcher, and the board comes back as it was.  With a proven
    +5 entry for the root in the table, the first call returns 5 and so
    does the driver; otherwise the driver returns the root's static
    evaluation, which is what every call returned.  For a full board it
    calls nothing and returns its initial value 1. *)
Theorem iterativeDeepening_terminal_root (board : Board) (tt : TT) :
  endOfGame board = true ->
  let n := length (get_empty_points board) in
  let '(r, (st', log)) := iterativeDeepening_gen (logged search) n ((board, tt), []) in
  (n = 0%nat -> log = [] /\ r = 1) /\
  ((0 < n)%nat -> log <> [] /\ fst st' = board /\
     (proven_entry (tt_lookup tt (hash board)) = true ->
        r = 5 /\ log = [mkCall (- INFINITY) INFINITY 0 1 5]) /\
     (proven_entry (tt_lookup tt (hash board)) = false ->
        r = staticallyEvaluateForToPlay board /\
        Forall (fun c => call_value c = staticallyEvaluateForToPlay board) log)).
Proof.
  intros He. cbn zeta. unfold iterativeDeepening_gen.
  destruct (proven_entry (tt_lookup tt (hash board))) eqn:Hp.
  - destruct (length (get_empty_points board)) as [|k]; cbn [id_loop].
    + split; [intros _; split; reflexivity|]. intros H; lia.
    + unfold logged at 1. unfold search_ab, alphabeta_root.
      rewrite alphabeta_tt_terminal by exact He. rewrite Hp. cbn.
      split; [discriminate|]. intros _. split; [discriminate|].
      split; [reflexivity|]. split; [intros _; split; reflexivity|discriminate].
  - pose proof (id_loop_terminal board (length (get_empty_points board)) 1 1 tt [] He
                  (or_introl Hp)) as H.
    destruct (id_loop (logged search) (length (get_empty_points board)) 1 1 ((board, tt), []))
      as [r [st' log]].
    destruct H as [nl [Hl [Hb [Hf [Hz Hpos]]]]]. cbn in Hl. subst log.
    split.
    + intros Hn. now apply Hz.
    + intros Hn. destruct (Hpos Hn) as [Hne Hr].
      split; [exact Hne|]. split; [exact Hb|]. split; [discriminate|]. auto.
Qed.

End TerminalRoot.

(** ** The [solve] command *)

Section SolveClaims.

Context {Board : Type}.
Variable get_empty_points : Board -> list Z.
Variable current_player : Board -> Z.
Variable play_move : Board -> Z -> Z -> Board.
Variable undoMove : Board -> Board.
Variable endOfGame : Board -> bool.
Variable staticallyEvaluateForToPlay : Board -> Z.
Variable hash : Board -> Z.
Variable board_size : Board -> Z.

Local Abbreviation solve := (solve_cmd get_empty_points current_player play_move undoMove
                      endOfGame staticallyEvaluateForToPlay hash board_size).
Local Abbreviation deepen := (iterativeDeepening get_empty_points current_player play_move
                      undoMove endOfGame staticallyEvaluateForToPlay hash).

(** The outcome of the alarm, against the budget [self.time]. *)
Lemma alarm_outcome_cases (t : Z) (t_update t_done : nat) :
  (alarm_outcome_of t t_update t_done = Overflow <-> t < - 2 ^ 31 \/ 2 ^ 31 - 1 < t) /\
  (t = 0 -> alarm_outcome_of t t_update t_done = NotFired false) /\
  (forall armed, alarm_outcome_of t t_update t_done = NotFired armed -> armed = negb (t =? 0)) /\
  (0 < t <= 2 ^ 31 - 1 ->
     (t <= Z.of_nat t_update -> alarm_outcome_of t t_update t_done = FiresBeforeUpdate) /\
     (Z.of_nat t_update < t <= Z.of_nat t_done ->
        alarm_outcome_of t t_update t_done = FiresAfterUpdate) /\
     (Z.of_nat t_update < t -> Z.of_nat t_done < t ->
        alarm_outcome_of t t_update t_done = NotFired true)) /\
  (- 2 ^ 31 <= t < 0 -> alarm_delay t = Some (t + 2 ^ 32)).
Proof.
  assert (Hd : (alarm_delay t = None /\ (t < - 2 ^ 31 \/ 2 ^ 31 - 1 < t)) \/
               (alarm_delay t = Some (t mod 2 ^ 32) /\ - 2 ^ 31 <= t <= 2 ^ 31 - 1)).
  { unfold alarm_delay.
    destruct (Z.ltb_spec t (- 2 ^ 31)), (Z.ltb_spec (2 ^ 31 - 1) t); cbn [orb];
      [left; split; auto..|right; split; [reflexivity|lia]]. }
  unfold alarm_outcome_of.
  change (2 ^ 31) with 2147483648 in *. change (2 ^ 32) with 4294967296 in *.
  destruct Hd as [[-> Hr]|[-> Hr]].
  - split; [tauto|]. split; [lia|]. split; [discriminate|]. split; [lia|]. lia.
  - assert (Hz : t mod 4294967296 = 0 <-> t = 0).
    { split; [|intros ->; reflexivity]. intros H0.
      destruct (Z.ltb_spec t 0).
      - assert (t / 4294967296 = -1) by
          (symmetry; apply Z.div_unique with (r := t + 4294967296); lia).
        rewrite Z.mod_eq in H0 by lia. lia.
      - rewrite Z.mod_small in H0 by lia. exact H0. }
    assert (Hn : - 2147483648 <= t < 0 -> t mod 4294967296 = t + 4294967296).
    { intros Ht. assert (t / 4294967296 = -1) by
        (symmetry; apply Z.div_unique with (r := t + 4294967296); lia).
      rewrite Z.mod_eq by lia. lia. }
    assert (Hp : 0 <= t -> t mod 4294967296 = t) by (intros; apply Z.mod_small; lia).
    split.
    { split; [|lia]. destruct (t mod 4294967296 =? 0); [discriminate|].
      destruct (t mod 4294967296 <=? Z.of_nat t_update); [discriminate|].
      destruct (t mod 4294967296 <=? Z.of_nat t_done); discriminate. }
    split; [intros ->; reflexivity|].
    split.
    { intros armed. destruct (Z.eqb_spec (t mod 4294967296) 0) as [H0|H0].
      - intros Ha. injection Ha as <-. apply Hz in H0. now rewrite H0.
      - destruct (t mod 4294967296 <=? Z.of_nat t_update); [discriminate|].
        destruct (t mod 4294967296 <=? Z.of_nat t_done); [discriminate|].
        intros Ha. injection Ha as <-. destruct (Z.eqb_spec t 0); [|reflexivity].
        exfalso. apply H0, Hz. assumption. }
    split.
    { intros Ht. rewrite Hp by lia.
      destruct (Z.eqb_spec t 0); [lia|].
      split; [intros Hu; destruct (Z.leb_spec t (Z.of_nat t_update)); [reflexivity|lia]|].
      split.
      - intros Hu. destruct (Z.leb_spec t (Z.of_nat t_update)); [lia|].
        destruct (Z.leb_spec t (Z.of_nat t_done)); [reflexivity|lia].
      - intros Hu Hdn. destruct (Z.leb_spec t (Z.of_nat t_update)); [lia|].
        destruct (Z.leb_spec t (Z.of_nat t_done)); [lia|reflexivity]. }
    intros Ht. now rewrite Hn by lia.
Qed.

(** C3: answering the [solve] command (not from [genmove]), with Black or
    White to move, gives exactly one response, of one of four shapes.  When
    the guarded block ran to [signal.alarm(0)] (no [OverflowError], no
    alarm, a table entry for the root whose move [format_point] accepts)
    the response reports the search's value: the proven win (+5) for the
    side to move, with that move; the proven loss (−5), as the opponent's
    win with no move; ["draw"] with that move for any other value.
    Otherwise, and only then, it is ["unknown"]: the budget overflowed, the
    alarm fired, or the lookup or [format_point] failed. *)
Theorem solve_cmd_outcomes (c : Conn) (t_update t_done : nat) :
  genMoveRunning c = false ->
  current_player (conn_board c) = BLACK \/ current_player (conn_board c) = WHITE ->
  let '(result, (bc, tt')) := deepen (conn_board c) (conn_tt c) in
  let cp := current_player (conn_board c) in
  let outcome := alarm_outcome_of (time c) t_update t_done in
  exists resp, snd (fst (solve c t_update t_done)) = [resp] /\
    ((exists armed sc mv move,
        outcome = NotFired armed /\
        tt_lookup tt' (hash (conn_board c)) = Some (sc, mv) /\
        format_point MAXSIZE (point_to_coord mv (board_size bc)) = Ok move /\
        ((result = 5 /\ ((cp = BLACK /\ resp = ("b " ++ move)%string) \/
                         (cp = WHITE /\ resp = ("w " ++ move)%string))) \/
         (result = -5 /\ ((cp = BLACK /\ resp = "w"%string) \/
                          (cp = WHITE /\ resp = "b"%string))) \/
         (result <> 5 /\ result <> -5 /\ resp = ("draw " ++ move)%string))) \/
     (resp = "unknown"%string /\
      (outcome = Overflow \/ outcome = FiresBeforeUpdate \/ outcome = FiresAfterUpdate \/
       tt_lookup tt' (hash (conn_board c)) = None \/
       exists sc mv e, tt_lookup tt' (hash (conn_board c)) = Some (sc, mv) /\
         format_point MAXSIZE (point_to_coord mv (board_size bc)) = Raise e))).
Proof.
  intros Hg Hcp. unfold solve_cmd. cbv beta zeta. rewrite Hg.
  destruct (deepen (conn_board c) (conn_tt c)) as [result [bc tc]].
  destruct (alarm_outcome_of (time c) t_update t_done) as [| | |armed].
  - exists "unknown"%string. split; [reflexivity|]. right. split; [reflexivity|]. now left.
  - exists "unknown"%string. split; [reflexivity|]. right. split; [reflexivity|]. now right; left.
  - exists "unknown"%string. split; [reflexivity|]. right. split; [reflexivity|].
    now right; right; left.
  - cbn [fst snd conn_tt conn_board].
    destruct (tt_lookup tc (hash (conn_board c))) as [[sc mv]|] eqn:Hl.
    2:{ exists "unknown"%string. split; [reflexivity|]. right. split; [reflexivity|].
        now right; right; right; left. }
    destruct (format_point MAXSIZE (point_to_coord mv (board_size bc))) as [move|e] eqn:Hf.
    2:{ exists "unknown"%string. split; [reflexivity|]. right. split; [reflexivity|].
        right; right; right; right. now exists sc, mv, e. }
    exists (solve_response (current_player (conn_board c)) result move).
    split; [reflexivity|]. left. exists armed, sc, mv, move.
    split; [reflexivity|]. split; [first [reflexivity|exact Hl]|]. split; [first [reflexivity|exact Hf]|].
    unfold solve_response.
    destruct Hcp as [Hcp|Hcp]; rewrite Hcp; unfold BLACK, WHITE; cbn [Z.eqb Pos.eqb];
      rewrite ?andb_true_r, ?andb_false_r; cbn [orb];
      destruct (Z.eqb_spec result 5); cbn;
      try (left; split; [assumption|]; auto; fail);
      destruct (Z.eqb_spec result (-5)); cbn;
      try (right; left; split; [assumption|]; auto; fail);
      right; right; repeat split; auto.
Qed.

(** C7 (as amended): a budget of 0 schedules no alarm, so the search runs
    to the end.  A budget outside the C [int] range raises [OverflowError]
    before anything else: ["unknown"], and nothing changes (an alarm
    scheduled before stays scheduled).  A budget [t] from 1 to 2^31 − 1
    fires [t] seconds in, unless the block has reached [signal.alarm(0)]
    (a negative budget [t] fires after 2^32 + [t] seconds).  An alarm that
    fires answers ["unknown"] (nothing from [genmove]) and returns [None];
    the live board is unchanged, and so is its table when the alarm fires
    before [updateHash] has returned, while after it the table is the
    search's.  With no alarm, a missing table entry or an unprintable move
    also answers ["unknown"] and returns [None]; the table is the search's,
    and the alarm of a budget other than 0 stays scheduled.  Every other
    answer comes from a search that ran without the alarm, and reports the
    value it returned. *)
Theorem solve_cmd_unknown (c : Conn) (t_update t_done : nat) :
  let unknown := if genMoveRunning c then [] else ["unknown"%string] in
  let '(result, (bc, tt')) := deepen (conn_board c) (conn_tt c) in
  let outcome := alarm_outcome_of (time c) t_update t_done in
  (time c = 0 -> outcome = NotFired false) /\
  (outcome = Overflow <-> time c < - 2 ^ 31 \/ 2 ^ 31 - 1 < time c) /\
  (0 < time c <= 2 ^ 31 - 1 ->
     (time c <= Z.of_nat t_update -> outcome = FiresBeforeUpdate) /\
     (Z.of_nat t_update < time c <= Z.of_nat t_done -> outcome = FiresAfterUpdate) /\
     (Z.of_nat t_update < time c -> Z.of_nat t_done < time c -> outcome = NotFired true)) /\
  (- 2 ^ 31 <= time c < 0 -> alarm_delay (time c) = Some (time c + 2 ^ 32)) /\
  (outcome = Overflow -> solve c t_update t_done = (c, unknown, None)) /\
  (outcome = FiresBeforeUpdate ->
     solve c t_update t_done =
       (mkConn (conn_board c) (conn_tt c) (time c) (genMoveRunning c) false, unknown, None)) /\
  (outcome = FiresAfterUpdate ->
     solve c t_update t_done =
       (mkConn (conn_board c) tt' (time c) (genMoveRunning c) false, unknown, None)) /\
  (forall armed, outcome = NotFired armed ->
     (tt_lookup tt' (hash (conn_board c)) = None \/
      exists sc mv e, tt_lookup tt' (hash (conn_board c)) = Some (sc, mv) /\
        format_point MAXSIZE (point_to_coord mv (board_size bc)) = Raise e) ->
     solve c t_update t_done =
       (mkConn (conn_board c) tt' (time c) (genMoveRunning c) armed, unknown, None) /\
     armed = negb (time c =? 0)) /\
  (forall resp, In resp (snd (fst (solve c t_update t_done))) -> resp <> "unknown"%string ->
     exists armed sc mv move, outcome = NotFired armed /\
       tt_lookup tt' (hash (conn_board c)) = Some (sc, mv) /\
       format_point MAXSIZE (point_to_coord mv (board_size bc)) = Ok move /\
       resp = solve_response (current_player (conn_board c)) result move).
Proof.
  destruct (alarm_outcome_cases (time c) t_update t_done)
    as [Hov [H0 [Harm [Hpos Hneg]]]].
  cbv zeta. unfold solve_cmd. cbv beta zeta.
  destruct (deepen (conn_board c) (conn_tt c)) as [result [bc tc]] eqn:Hd.
  split; [exact H0|]. split; [exact Hov|].
  split; [exact Hpos|].
  split; [exact Hneg|].
  split; [intros ->; reflexivity|].
  split; [intros ->; reflexivity|].
  split; [intros ->; reflexivity|].
  split.
  - intros armed Ho Hfail. rewrite Ho. split; [|now apply Harm].
    cbn [fst snd conn_tt conn_board].
    destruct Hfail as [-> | [sc [mv [e [-> ->]]]]]; reflexivity.
  - intros resp Hin Hne. revert Hin.
    destruct (alarm_outcome_of (time c) t_update t_done) as [| | |armed];
      [destruct (genMoveRunning c); cbn; [intros []|intros [Hin|[]]; congruence]..|].
    cbn [fst snd conn_tt conn_board].
    destruct (tt_lookup tc (hash (conn_board c))) as [[sc mv]|];
      [|destruct (genMoveRunning c); cbn; [intros []|intros [Hin|[]]; congruence]].
    destruct (format_point MAXSIZE (point_to_coord mv (board_size bc))) as [move|e] eqn:Hf;
      [|destruct (genMoveRunning c); cbn; [intros []|intros [Hin|[]]; congruence]].
    destruct (genMoveRunning c); cbn; [intros []|].
    intros [Hin|[]]. exists armed, sc, mv, move.
    split; [reflexivity|]. split; [reflexivity|]. split; [exact Hf|]. now rewrite Hin.
Qed.

(** C9: [solve] leaves the stones and the side to move of the live board
    unchanged (the search runs on the copy); only the table is replaced by
    the copy's table after the search. *)
Theorem solve_cmd_keeps_board (c : Conn) (t_update t_done : nat) :
  let c' := fst (fst (solve c t_update t_done)) in
  conn_board c' = conn_board c /\ time c' = time c /\
  genMoveRunning c' = genMoveRunning c /\
  (conn_tt c' = conn_tt c \/
   conn_tt c' = snd (snd (deepen (conn_board c) (conn_tt c)))).
Proof.
  cbn zeta. unfold solve_cmd. cbv beta zeta.
  destruct (deepen (conn_board c) (conn_tt c)) as [result [bc tc]].
  destruct (alarm_outcome_of (time c) t_update t_done) as [| | |armed];
    [cbn; repeat split; left; reflexivity..|cbn; repeat split; right; reflexivity|].
  cbn [fst snd conn_tt conn_board].
  destruct (tt_lookup tc (hash (conn_board c))) as [[sc mv]|];
    [destruct (format_point MAXSIZE (point_to_coord mv (board_size bc)))|];
    cbn; repeat split; right; reflexivity.
Qed.

End SolveClaims.

(** ** The concrete Gomoku board *)

(** The apply/undo law of the board: playing an empty point for the side to
    move and undoing it gives back the board. *)
Lemma gomoku_undo_play (b : Gomoku.GoBoard) (m : Z) :
  In m (Gomoku.get_empty_points b) ->
  Gomoku.undoMove (Gomoku.play_move b m (Gomoku.current_player b)) = b.
Proof.
  unfold Gomoku.get_empty_points. intros Hin.
  apply in_map_iff in Hin as [i [<- Hi]].
  apply list_elem_of_In, list_elem_of_filter in Hi as [He Hi].
  apply list_elem_of_In, in_seq in Hi.
  apply Is_true_eq_true, Z.eqb_eq in He.
  destruct (lookup_lt_is_Some_2 (Gomoku.board b) i) as [x Hx]; [lia|].
  pose proof (nth_lookup_Some _ _ BORDER _ Hx) as Hn. rewrite He in Hn. subst x.
  unfold Gomoku.play_move, Gomoku.get.
  destruct (Z.ltb_spec (Z.of_nat i) 0); [lia|]. rewrite Nat2Z.id, He. cbn.
  unfold Gomoku.undoMove, Gomoku.set. cbn. rewrite Nat2Z.id.
  rewrite list_insert_insert_eq, list_insert_id by exact Hx.
  replace (opponent (opponent (Gomoku.current_player b))) with (Gomoku.current_player b)
    by (unfold opponent; lia).
  destruct b; reflexivity.
Qed.

Lemma In_zrange (a z : Z) (n : nat) :
  a <= z < a + Z.of_nat n -> In z (map (fun k => a + Z.of_nat k) (seq 0 n)).
Proof.
  intros Hz. apply in_map_iff. exists (Z.to_nat (z - a)).
  split; [lia|]. apply in_seq. lia.
Qed.

(** ** Runs of the solver on Gomoku boards *)

(** C3, at the connection of [four_black] (Black to move, budget 0): the
    command gives exactly one response. *)
Lemma solve_cmd_outcomes_witness :
  let c := mkConn GomokuSolver.four_black empty_tt 0 false false in
  genMoveRunning c = false /\
  (Gomoku.current_player (conn_board c) = BLACK \/
   Gomoku.current_player (conn_board c) = WHITE) /\
  exists resp, snd (fst (GomokuSolver.solve c 0 0)) = [resp].
Proof.
  intros c. split; [reflexivity|]. split; [left; reflexivity|].
  pose proof (solve_cmd_outcomes Gomoku.get_empty_points Gomoku.current_player
                Gomoku.play_move Gomoku.undoMove Gomoku.endOfGame
                Gomoku.staticallyEvaluateForToPlay Gomoku.hash Gomoku.board_size c 0 0
                eq_refl (or_introl eq_refl)) as H.
  revert H. destruct (iterativeDeepening _ _ _ _ _ _ _ _ _) as [r [bc tt']].
  intros [resp [H _]]. exists resp. exact H.
Defined.

(** C4, on the empty 2x2 board with the window (−∞, 0) at depth 0 and
    limit 1: the first candidate (point 4) evaluates to 0 at the horizon,
    which reaches beta = 0, so the loop cuts off and returns 0. *)
Lemma ab_loop_beta_cutoff_witness :
  let b := Gomoku.new_board 2 in
  let b1 := Gomoku.play_move b 4 (Gomoku.current_player b) in
  let child := fun st a bt t =>
    alphabeta_tt Gomoku.get_empty_points Gomoku.current_player Gomoku.play_move
      Gomoku.undoMove Gomoku.endOfGame Gomoku.staticallyEvaluateForToPlay Gomoku.hash
      0 st a bt t 1 INFINITY 1 in
  child b1 (- 0) (- - INFINITY) empty_tt = (0, b1, storeScore Gomoku.hash empty_tt b1 0) /\
  exists tt2,
    ab_loop Gomoku.current_player Gomoku.play_move Gomoku.undoMove Gomoku.hash child
      [(4, 0); (5, 0)] b (- INFINITY) 0 empty_tt =
    (0, Gomoku.undoMove b1, storeScore Gomoku.hash tt2 (Gomoku.undoMove b1) 0).
Proof.
  intros b b1 child.
  assert (H : child b1 (- 0) (- - INFINITY) empty_tt =
              (0, b1, storeScore Gomoku.hash empty_tt b1 0)) by reflexivity.
  split; [exact H|].
  destruct (ab_loop_beta_cutoff Gomoku.get_empty_points Gomoku.current_player
              Gomoku.play_move Gomoku.undoMove Gomoku.endOfGame
              Gomoku.staticallyEvaluateForToPlay Gomoku.hash 0 0 INFINITY 1 4 0 [(5, 0)]
              b (- INFINITY) 0 empty_tt 0 b1 (storeScore Gomoku.hash empty_tt b1 0) H)
    as [Hcut _].
  destruct (Hcut ltac:(lia)) as [_ [tt2 [_ [Heq _]]]].
  exists tt2. exact Heq.
Defined.

(** C5, on the empty 2x2 board, whose board satisfies the apply/undo law. *)
Lemma orderMoves_sorted_witness :
  (forall (s : Gomoku.GoBoard) (m : Z), In m (Gomoku.get_empty_points s) ->
     Gomoku.undoMove (Gomoku.play_move s m (Gomoku.current_player s)) = s) /\
  StronglySorted (rev_stable (Gomoku.get_empty_points (Gomoku.new_board 2)))
    (fst (GomokuSolver.order (Gomoku.new_board 2))).
Proof.
  split; [exact gomoku_undo_play|].
  destruct (orderMoves_sorted Gomoku.get_empty_points Gomoku.current_player
              Gomoku.play_move Gomoku.undoMove Gomoku.staticallyEvaluateForToPlay
              gomoku_undo_play (Gomoku.new_board 2)) as [_ [_ H]].
  exact H.
Defined.

(** C5: on the empty 2x2 board every candidate scores 0, and the orderer
    returns them in the reverse of the enumeration order. *)
Lemma orderMoves_ties_reversed :
  Gomoku.get_empty_points (Gomoku.new_board 2) = [4; 5; 7; 8] /\
  fst (GomokuSolver.order (Gomoku.new_board 2)) = [(8, 0); (7, 0); (5, 0); (4, 0)].
Proof. split; vm_compute; reflexivity. Qed.

(** C6, for the search of depth limit 1 from the empty 2x2 board. *)
Lemma alphabeta_tt_restores_board_witness :
  (forall (s : Gomoku.GoBoard) (m : Z), In m (Gomoku.get_empty_points s) ->
     Gomoku.undoMove (Gomoku.play_move s m (Gomoku.current_player s)) = s) /\
  snd (fst (GomokuSolver.alphabeta (Gomoku.new_board 2) (- INFINITY) INFINITY empty_tt 0 1))
    = Gomoku.new_board 2 /\
  snd (GomokuSolver.order (Gomoku.new_board 2)) = Gomoku.new_board 2.
Proof.
  split; [exact gomoku_undo_play|].
  destruct (alphabeta_tt_restores_board Gomoku.get_empty_points Gomoku.current_player
              Gomoku.play_move Gomoku.undoMove Gomoku.endOfGame
              Gomoku.staticallyEvaluateForToPlay Gomoku.hash gomoku_undo_play (1 - 0)
              (Gomoku.new_board 2) (- INFINITY) INFINITY empty_tt 0 INFINITY 1)
    as [H1 [_ H3]].
  split; [exact H1|exact H3].
Defined.

(** C7: with a budget of 0 (no alarm) and however long the search takes,
    [solve] on [four_black] reports the proven win "b E1" with the move E1
    (point 11), not ["unknown"]. *)
Lemma solve_cmd_zero_budget_decides :
  solve_cmd Gomoku.get_empty_points Gomoku.current_player Gomoku.play_move Gomoku.undoMove
    Gomoku.endOfGame Gomoku.staticallyEvaluateForToPlay Gomoku.hash Gomoku.board_size
    (mkConn GomokuSolver.four_black empty_tt 0 false false) 1000 1000 =
  (mkConn GomokuSolver.four_black
     (snd (snd (GomokuSolver.deepen GomokuSolver.four_black empty_tt))) 0 false false,
   ["b E1"%string], Some 11).
Proof. vm_compute. reflexivity. Qed.

(** C8, at [five_black]: a finished game with empty points left, and an
    empty table. *)
Lemma iterativeDeepening_terminal_root_witness :
  Gomoku.endOfGame GomokuSolver.five_black = true /\
  fst (GomokuSolver.deepen_logged GomokuSolver.five_black empty_tt) =
    Gomoku.staticallyEvaluateForToPlay GomokuSolver.five_black.
Proof.
  assert (He : Gomoku.endOfGame GomokuSolver.five_black = true) by (vm_compute; reflexivity).
  assert (Hp : proven_entry (tt_lookup empty_tt (Gomoku.hash GomokuSolver.five_black)) = false)
    by reflexivity.
  split; [exact He|].
  pose proof (iterativeDeepening_terminal_root Gomoku.get_empty_points Gomoku.current_player
                Gomoku.play_move Gomoku.undoMove Gomoku.endOfGame
                Gomoku.staticallyEvaluateForToPlay Gomoku.hash GomokuSolver.five_black
                empty_tt He) as H.
  cbn zeta in H. unfold GomokuSolver.deepen_logged. revert H.
  destruct (iterativeDeepening_gen _ _ _) as [r [st' log]].
  intros [_ H]. destruct H as [_ [_ [_ H]]]; [apply Nat.ltb_lt; vm_compute; reflexivity|].
  exact (proj1 (H Hp)).
Defined.

(** C8: at [five_black] (Black has five in a row, 16 points are empty) the
    driver calls the searcher once, with the full window and limit 1. *)
Lemma iterativeDeepening_calls_on_finished_game :
  Gomoku.endOfGame GomokuSolver.five_black = true /\
  length (Gomoku.get_empty_points GomokuSolver.five_black) = 16%nat /\
  snd (snd (GomokuSolver.deepen_logged GomokuSolver.five_black empty_tt)) =
    [mkCall (- INFINITY) INFINITY 0 1 (-5)].
Proof. split; [|split]; vm_compute; reflexivity. Qed.

(** ** The table cutoff of the searcher *)

(** C2: a table entry holding the proven loss −5 for a position that is not
    over, below the depth limit, is not returned: the empty 2x2 board with
    −5 recorded is expanded and searched to 0, while +5 recorded is
    returned at once. *)
Theorem alphabeta_tt_ignores_proven_loss :
  Gomoku.endOfGame (Gomoku.new_board 2) = false /\
  fst (fst (GomokuSolver.alphabeta (Gomoku.new_board 2) (- INFINITY) INFINITY
              (GomokuSolver.tt_with (Gomoku.new_board 2) (-5)) 0 1)) = 0 /\
  fst (fst (GomokuSolver.alphabeta (Gomoku.new_board 2) (- INFINITY) INFINITY
              (GomokuSolver.tt_with (Gomoku.new_board 2) 5) 0 1)) = 5.
Proof. split; [|split]; vm_compute; reflexivity. Qed.

(** A recorded +5 for the position is returned at once, whatever the depth
    and the depth limit: the board and the table are left as they are. *)
Theorem alphabeta_tt_proven_win_cutoff {Board : Type} (get_empty_points : Board -> list Z)
    (current_player : Board -> Z) (play_move : Board -> Z -> Z -> Board)
    (undoMove : Board -> Board) (endOfGame : Board -> bool)
    (staticallyEvaluateForToPlay hash : Board -> Z)
    (fuel : nat) (s : Board) (alpha beta : Z) (tt : TT)
    (depth : nat) (depthMove : Z) (depthLimit : nat) :
  tt_scores tt !! hash s = Some 5 ->
  alphabeta_tt get_empty_points current_player play_move undoMove endOfGame
    staticallyEvaluateForToPlay hash fuel s alpha beta tt depth depthMove depthLimit
  = (5, s, tt).
Proof.
  intros H. destruct fuel; cbn; unfold tt_lookup; rewrite H; reflexivity.
Qed.

Lemma alphabeta_tt_proven_win_cutoff_witness :
  tt_scores (GomokuSolver.tt_with (Gomoku.new_board 2) 5)
    !! Gomoku.hash (Gomoku.new_board 2) = Some 5 /\
  GomokuSolver.alphabeta (Gomoku.new_board 2) (- INFINITY) INFINITY
    (GomokuSolver.tt_with (Gomoku.new_board 2) 5) 0 4 =
  (5, Gomoku.new_board 2, GomokuSolver.tt_with (Gomoku.new_board 2) 5).
Proof.
  assert (H : tt_scores (GomokuSolver.tt_with (Gomoku.new_board 2) 5)
                !! Gomoku.hash (Gomoku.new_board 2) = Some 5)
    by (unfold GomokuSolver.tt_with; cbn; apply lookup_insert_eq).
  split; [exact H|].
  exact (alphabeta_tt_proven_win_cutoff Gomoku.get_empty_points Gomoku.current_player
           Gomoku.play_move Gomoku.undoMove Gomoku.endOfGame
           Gomoku.staticallyEvaluateForToPlay Gomoku.hash (4 - 0) (Gomoku.new_board 2)
           (- INFINITY) INFINITY _ 0 INFINITY 4 H).
Defined.

(** ** The coordinate helpers *)

(** C10: with [MAXSIZE] = 25 and a board of side 25, the point Z25 (row 25,
    column 25) is read by [move_to_coord], but [format_point] raises
    [ValueError] on it, so the round trip fails there; and [format_point]
    prints the point (0, 0), which is off the board, as Z0. *)
Theorem format_point_last_line :
  move_to_coord MAXSIZE "Z25" 25 = Ok (Some (25, 25)) /\
  format_point MAXSIZE (Some (25, 25)) = Raise ValueError /\
  format_point MAXSIZE (Some (0, 0)) = Ok "Z0"%string /\
  format_point MAXSIZE None = Ok "PASS"%string /\
  move_to_coord MAXSIZE "PASS" 25 = Ok None.
Proof. repeat split; vm_compute; reflexivity. Qed.

(** The round trip holds for every point of a board of side 2 to 25 whose
    row and column are below [MAXSIZE]. *)
Theorem format_point_roundtrip (row col bs : Z) :
  1 <= row <= bs -> 1 <= col <= bs -> 2 <= bs <= MAXSIZE ->
  row < MAXSIZE -> col < MAXSIZE ->
  match format_point MAXSIZE (Some (row, col)) with
  | Ok s => move_to_coord MAXSIZE s bs
  | Raise e => Raise e
  end = Ok (Some (row, col)).
Proof.
  intros Hr Hc Hb Hr' Hc'. unfold MAXSIZE in *.
  assert (Hall : forallb (fun r => forallb (fun c => forallb (fun b =>
      implb ((r <=? b) && (c <=? b))
        match match format_point 25 (Some (r, c)) with
              | Ok s => move_to_coord 25 s b
              | Raise e => Raise e
              end with
        | Ok (Some (r', c')) => (r' =? r) && (c' =? c)
        | _ => false
        end)
      (map (fun k => 2 + Z.of_nat k) (seq 0 24)))
      (map (fun k => 1 + Z.of_nat k) (seq 0 24)))
      (map (fun k => 1 + Z.of_nat k) (seq 0 24)) = true)
    by (vm_compute; reflexivity).
  rewrite forallb_forall in Hall.
  specialize (Hall row (In_zrange 1 row 24 ltac:(lia))).
  rewrite forallb_forall in Hall.
  specialize (Hall col (In_zrange 1 col 24 ltac:(lia))).
  rewrite forallb_forall in Hall.
  specialize (Hall bs (In_zrange 2 bs 24 ltac:(lia))).
  revert Hall.
  destruct (Z.leb_spec row bs), (Z.leb_spec col bs); try lia. cbn [andb implb].
  destruct (format_point 25 (Some (row, col))) as [s|e]; [|discriminate].
  destruct (move_to_coord 25 s bs) as [[[r' c']|]|e]; try discriminate.
  intros Hk. apply andb_prop in Hk as [H1 H2].
  apply Z.eqb_eq in H1, H2. subst. reflexivity.
Qed.

Lemma format_point_roundtrip_witness :
  match format_point MAXSIZE (Some (19, 9)) with
  | Ok s => move_to_coord MAXSIZE s 19
  | Raise e => Raise e
  end = Ok (Some (19, 9)).
Proof. apply (format_point_roundtrip 19 9 19); unfold MAXSIZE; lia. Defined.

(** ** The GTP command loop *)

Lemma la_app (a b : string) :
  list_ascii_of_string (a ++ b)%string = list_ascii_of_string a ++ list_ascii_of_string b.
Proof. induction a as [|x a IH]; simpl; [reflexivity|now rewrite IH]. Qed.

Lemma py_split_sol (l : list ascii) :
  py_split (string_of_list_ascii l) = map string_of_list_ascii (split_go l []).
Proof. unfold py_split. now rewrite list_ascii_of_string_of_list_ascii. Qed.

Lemma lstrip_by_split (p : ascii -> bool) (l : list ascii) :
  exists pre, l = pre ++ lstrip_by p l /\ Forall (fun c => p c = true) pre.
Proof.
  induction l as [|c l IH]; cbn; [exists []; auto|].
  destruct (p c) eqn:E; [|exists []; auto].
  destruct IH as [pre [Hl Hf]]. exists (c :: pre). cbn. rewrite <- Hl. auto.
Qed.

Lemma strip_by_nil (p : ascii -> bool) (l : list ascii) :
  strip_by p l = [] -> Forall (fun c => p c = true) l.
Proof.
  unfold strip_by. intros H.
  apply (f_equal (@rev ascii)) in H. rewrite rev_involutive in H. cbn in H.
  destruct (lstrip_by_split p (rev (lstrip_by p l))) as [pre2 [H2 F2]].
  rewrite H, app_nil_r in H2.
  destruct (lstrip_by_split p l) as [pre1 [H1 F1]].
  rewrite H1. apply Forall_app. split; [exact F1|].
  apply (f_equal (@rev ascii)) in H2. rewrite rev_involutive in H2. rewrite H2.
  now apply Forall_rev.
Qed.

Lemma lstrip_by_app_all (p : ascii -> bool) (pre l : list ascii) :
  Forall (fun c => p c = true) pre -> lstrip_by p (pre ++ l) = lstrip_by p l.
Proof. induction 1 as [|c pre Hc _ IH]; cbn; [reflexivity|now rewrite Hc]. Qed.

Lemma lstrip_by_all (p : ascii -> bool) (l : list ascii) :
  Forall (fun c => p c = true) l -> lstrip_by p l = [].
Proof. intros H. rewrite <- (app_nil_r l), lstrip_by_app_all by exact H. reflexivity. Qed.

Lemma split_go_word (w l cur : list ascii) :
  Forall (fun c => py_isspace c = false) w -> split_go (w ++ l) cur = split_go l (rev w ++ cur).
Proof.
  intros H. revert cur. induction H as [|c w Hc _ IH]; intros cur; cbn; [reflexivity|].
  rewrite Hc, IH, <- app_assoc. reflexivity.
Qed.

Lemma split_go_word_space (w l : list ascii) (sp : ascii) :
  w <> [] -> Forall (fun c => py_isspace c = false) w -> py_isspace sp = true ->
  split_go (w ++ sp :: l) [] = w :: split_go l [].
Proof.
  intros Hn Hw Hs. rewrite split_go_word by exact Hw. cbn. rewrite Hs, app_nil_r.
  destruct (rev w) eqn:E.
  - apply (f_equal (@rev ascii)) in E. rewrite rev_involutive in E. cbn in E. congruence.
  - rewrite <- E, rev_involutive. reflexivity.
Qed.

Lemma split_go_spaces (l : list ascii) :
  Forall (fun c => py_isspace c = true) l -> split_go l [] = [].
Proof. induction 1 as [|c l Hc _ IH]; cbn; [reflexivity|now rewrite Hc]. Qed.

Lemma split_go_lstrip (l : list ascii) :
  split_go (lstrip_by py_isspace l) [] = split_go l [].
Proof.
  induction l as [|c l IH]; cbn; [reflexivity|].
  destruct (py_isspace c) eqn:E; [exact IH|]. cbn. now rewrite E.
Qed.

(** The runs [split_go] returns are non-empty and hold no whitespace. *)
Lemma split_go_words (l cur : list ascii) :
  Forall (fun c => py_isspace c = false) cur ->
  Forall (fun w => w <> [] /\ Forall (fun c => py_isspace c = false) w) (split_go l cur).
Proof.
  revert cur. induction l as [|c l IH]; intros cur Hc; cbn.
  - destruct cur; constructor; [|constructor].
    split; [intros H; apply (f_equal (@length ascii)) in H; rewrite length_rev in H;
            discriminate|now apply Forall_rev].
  - destruct (py_isspace c) eqn:E.
    + destruct cur; [now apply IH|]. constructor; [|now apply IH].
      split; [intros H; apply (f_equal (@length ascii)) in H; rewrite length_rev in H;
              discriminate|now apply Forall_rev].
    + apply IH. now constructor.
Qed.

(** Words each followed by a whitespace character are split back into
    the words. *)
Lemma split_go_words_spaced (ws : list (list ascii)) (sp : ascii) :
  py_isspace sp = true ->
  Forall (fun w => w <> [] /\ Forall (fun c => py_isspace c = false) w) ws ->
  split_go (concat (map (fun w => w ++ [sp]) ws)) [] = ws.
Proof.
  intros Hs. induction 1 as [|w ws [Hn Hw] _ IH]; cbn; [reflexivity|].
  rewrite <- app_assoc. cbn. rewrite split_go_word_space by assumption. now rewrite IH.
Qed.

(** Words joined by single spaces are split back into the words. *)
Lemma split_go_concat (x : string) (xs : list string) :
  Forall (fun a => list_ascii_of_string a <> [] /\
                   Forall (fun c => py_isspace c = false) (list_ascii_of_string a)) (x :: xs) ->
  split_go (list_ascii_of_string (String.concat " " (x :: xs))) [] =
  map list_ascii_of_string (x :: xs).
Proof.
  revert x. induction xs as [|y ys IH]; intros x H; inversion H as [|? ? [Hn Hw] Hr]; subst.
  - cbn [String.concat]. rewrite <- (app_nil_r (list_ascii_of_string x)).
    rewrite split_go_word by exact Hw. cbn. rewrite app_nil_r.
    destruct (rev (list_ascii_of_string x)) eqn:E.
    + apply (f_equal (@rev ascii)) in E. rewrite rev_involutive in E. cbn in E. congruence.
    + rewrite <- E, rev_involutive. reflexivity.
  - change (String.concat " " (x :: y :: ys)) with (x ++ " " ++ String.concat " " (y :: ys))%string.
    rewrite !la_app. cbn [list_ascii_of_string app].
    rewrite split_go_word_space by (auto; reflexivity).
    rewrite IH by exact Hr. reflexivity.
Qed.

(** Facts about single characters, checked on all 256 of them. *)
Lemma re_digit_char (c : ascii) :
  re_digit c = true ->
  existsb (Ascii.eqb c) [chr 32; chr 13; chr 9] = false /\ Ascii.eqb c "#"%char = false /\
  py_isdigit c = true.
Proof. destruct c as [[] [] [] [] [] [] [] []]; cbn; intuition discriminate. Qed.

Lemma strip_char_space (c : ascii) :
  existsb (Ascii.eqb c) [chr 32; chr 13; chr 9] = true -> py_isspace c = true.
Proof. destruct c as [[] [] [] [] [] [] [] []]; cbn; intuition discriminate. Qed.

Lemma Forall_la_nonspace (a : string) :
  forallb (fun c => negb (py_isspace c)) (list_ascii_of_string a) = true ->
  Forall (fun c => py_isspace c = false) (list_ascii_of_string a).
Proof.
  intros H. apply List.Forall_forall. intros c Hc.
  rewrite forallb_forall in H. specialize (H c Hc). now destruct (py_isspace c).
Qed.

(** Every command name starts with a letter and holds no whitespace. *)
Lemma commands_words :
  Forall (fun a => (exists c r, list_ascii_of_string a = c :: r /\
                      existsb (Ascii.eqb c) [chr 32; chr 13; chr 9] = false /\
                      Ascii.eqb c "#"%char = false /\ py_isdigit c = false) /\
                   Forall (fun c => py_isspace c = false) (list_ascii_of_string a)) commands.
Proof.
  repeat constructor; (eexists; eexists; split; [reflexivity|]); repeat split.
Qed.

Lemma get_cmd_dispatch (command_name : string) (args : list string) :
  In command_name commands ->
  (forall n msg, assoc command_name argmap = Some (n, msg) -> length args = n) ->
  Forall (fun a => a <> ""%string /\
                   forallb (fun c => negb (py_isspace c)) (list_ascii_of_string a) = true) args ->
  get_cmd (String.concat " " (command_name :: args)) = ([], Some (command_name, args)).
Proof.
  intros Hin Har Hargs.
  pose proof commands_words as Hw. rewrite List.Forall_forall in Hw.
  destruct (Hw _ Hin) as [[c [r [Hl [Hs [Hh Hd]]]]] Hn].
  assert (Hsplit : split_go (list_ascii_of_string (String.concat " " (command_name :: args))) [] =
                   map list_ascii_of_string (command_name :: args)).
  { apply split_go_concat. constructor.
    - split; [rewrite Hl; discriminate|exact Hn].
    - eapply Forall_impl; [exact Hargs|]. intros a [Ha Hf].
      split; [destruct a; [congruence|discriminate]|now apply Forall_la_nonspace]. }
  unfold get_cmd.
  assert (Hfirst : exists rest, list_ascii_of_string (String.concat " " (command_name :: args))
                                = c :: rest).
  { destruct args as [|a args]; cbn [String.concat].
    - exists r. exact Hl.
    - rewrite la_app, Hl. eexists. reflexivity. }
  destruct Hfirst as [rest Hrest].
  destruct (strip_by _ (list_ascii_of_string (String.concat " " (command_name :: args)))) eqn:E.
  { apply strip_by_nil in E. rewrite Hrest in E. inversion E. congruence. }
  rewrite Hrest, Hh, Hd, <- Hrest, py_split_sol, Hsplit, map_map.
  rewrite (map_ext _ (fun x => x)) by apply string_of_list_ascii_of_string.
  rewrite map_id. cbn [map].
  assert (Hx : existsb (String.eqb command_name) commands = true).
  { apply existsb_exists. exists command_name. split; [exact Hin|apply String.eqb_refl]. }
  unfold has_arg_error. rewrite Hx.
  destruct (assoc command_name argmap) as [[n msg]|] eqn:Ha; [|reflexivity].
  rewrite (Har n msg eq_refl), Nat.eqb_refl. reflexivity.
Qed.

(** A line made of a command name and its arguments, separated by single
    spaces, runs that command with those arguments and writes nothing,
    when the arguments are non-empty words without whitespace and their
    number is the one [argmap] requires. *)
Theorem get_cmd_roundtrip (command_name : string) (args : list string) :
  In command_name commands ->
  (forall n msg, assoc command_name argmap = Some (n, msg) -> length args = n) ->
  Forall (fun a => a <> ""%string /\
                   forallb (fun c => negb (py_isspace c)) (list_ascii_of_string a) = true) args ->
  get_cmd (String.concat " " (command_name :: args)) = ([], Some (command_name, args)).
Proof. exact (get_cmd_dispatch command_name args). Qed.

Lemma get_cmd_roundtrip_witness :
  In "play"%string commands /\
  (forall n msg, assoc "play"%string argmap = Some (n, msg) -> length ["b"; "E1"]%string = n) /\
  get_cmd (String.concat " " ["play"; "b"; "E1"]%string) = ([], Some ("play", ["b"; "E1"]))%string.
Proof.
  assert (H1 : In "play"%string commands) by (cbn; tauto).
  assert (H2 : forall n msg, assoc "play"%string argmap = Some (n, msg) ->
                             length ["b"; "E1"]%string = n)
    by (cbn; intros n msg H; congruence).
  split; [exact H1|split; [exact H2|]].
  apply (get_cmd_roundtrip "play" ["b"; "E1"]%string H1 H2).
  repeat constructor; discriminate.
Defined.

(** A leading line number, as regression tests write it, is dropped: the
    line runs as it would without the number, unless the rest starts
    with a digit or a [#]. *)
Theorem get_cmd_number_prefix (d c : string) :
  d <> ""%string -> forallb re_digit (list_ascii_of_string d) = true ->
  match c with
  | String x _ => negb (re_digit x) && negb (Ascii.eqb x "#"%char)
  | EmptyString => true
  end = true ->
  get_cmd (d ++ c) = get_cmd c.
Proof.
  intros Hd Hdig Hc.
  assert (Hall : Forall (fun x => re_digit x = true) (list_ascii_of_string d)).
  { apply List.Forall_forall. intros x Hx. rewrite forallb_forall in Hdig. now apply Hdig. }
  destruct d as [|x0 d']; [congruence|]. clear Hd.
  pose proof (re_digit_char x0 ltac:(now inversion Hall)) as [Hs0 [Hh0 Hd0]].
  (* The text after the number, once the number and the whitespace after
     it are dropped, splits as the rest does. *)
  assert (Hrest : split_go (lstrip_by py_isspace (lstrip_by re_digit
                    (x0 :: list_ascii_of_string d' ++ list_ascii_of_string c))) [] =
                  split_go (list_ascii_of_string c) []).
  { change (x0 :: list_ascii_of_string d' ++ list_ascii_of_string c) with
      (list_ascii_of_string (String x0 d') ++ list_ascii_of_string c).
    rewrite lstrip_by_app_all by exact Hall. rewrite split_go_lstrip.
    destruct c as [|x r]; [reflexivity|]. cbn in Hc |- *.
    destruct (re_digit x); [discriminate|]. reflexivity. }
  unfold get_cmd at 1.
  rewrite la_app. cbn [list_ascii_of_string app].
  destruct (strip_by _ (x0 :: list_ascii_of_string d' ++ list_ascii_of_string c)) eqn:E.
  { apply strip_by_nil, Forall_inv in E. congruence. }
  rewrite Hh0, Hd0.
  rewrite py_split_sol, Hrest. clear E.
  unfold get_cmd.
  destruct (strip_by _ (list_ascii_of_string c)) eqn:E2.
  - apply strip_by_nil in E2.
    rewrite split_go_spaces; [reflexivity|].
    eapply Forall_impl; [exact E2|]. exact strip_char_space.
  - destruct c as [|x r]; [discriminate|]. cbn in Hc.
    cbn [list_ascii_of_string].
    destruct (Ascii.eqb x "#"%char); [cbn in Hc; rewrite andb_false_r in Hc; discriminate|].
    destruct (py_isdigit x).
    + rewrite py_split_sol. cbn [lstrip_by].
      destruct (re_digit x); [discriminate|]. rewrite split_go_lstrip. reflexivity.
    + rewrite py_split_sol. reflexivity.
Qed.

Lemma get_cmd_number_prefix_witness :
  get_cmd ("12" ++ " play b E1")%string = ([], Some ("play", ["b"; "E1"]))%string.
Proof.
  rewrite (get_cmd_number_prefix "12" " play b E1" ltac:(discriminate) eq_refl eq_refl).
  reflexivity.
Defined.

(** What one line does: a command runs only when its name is a command,
    with the number of arguments [argmap] requires and arguments that are
    non-empty words without whitespace, and then [get_cmd] itself writes
    nothing; otherwise it writes nothing, the usage message of a command
    of [argmap], or ["Unknown command"], as one error. *)
Theorem get_cmd_outcome (command : string) :
  match get_cmd command with
  | (out, Some (name, args)) =>
      out = [] /\ In name commands /\
      (forall n msg, assoc name argmap = Some (n, msg) -> length args = n) /\
      Forall (fun a => a <> ""%string /\
                       Forall (fun c => py_isspace c = false) (list_ascii_of_string a)) args
  | (out, None) =>
      out = [] \/ out = [error "Unknown command"] \/
      exists cmd n msg, assoc cmd argmap = Some (n, msg) /\ out = [error msg]
  end.
Proof.
  unfold get_cmd.
  destruct (strip_by _ _); [now left|].
  destruct (list_ascii_of_string command) as [|c l0]; [now left|].
  destruct (Ascii.eqb c "#"%char); [now left|].
  set (lw := if py_isdigit c then _ else _).
  rewrite py_split_sol.
  pose proof (split_go_words lw [] ltac:(constructor)) as Hw.
  destruct (split_go lw []) as [|w ws]; [now left|].
  inversion Hw as [|? ? _ Hws]; subst. cbn [map].
  unfold has_arg_error.
  assert (Hargs : Forall (fun a => a <> ""%string /\
            Forall (fun c => py_isspace c = false) (list_ascii_of_string a))
            (map string_of_list_ascii ws)).
  { apply List.Forall_map. eapply Forall_impl; [exact Hws|].
    intros v [Hv Hf]. rewrite list_ascii_of_string_of_list_ascii.
    split; [destruct v; [congruence|discriminate]|exact Hf]. }
  destruct (existsb (String.eqb (string_of_list_ascii w)) commands) eqn:Ex.
  - apply existsb_exists in Ex as [x [Hx Heq]]. apply String.eqb_eq in Heq. subst x.
    destruct (assoc (string_of_list_ascii w) argmap) as [[n msg]|] eqn:Ha.
    + destruct (Nat.eqb n (length (map string_of_list_ascii ws))) eqn:En;
        cbn [negb fst snd].
      * split; [reflexivity|split; [exact Hx|split; [|exact Hargs]]].
        intros n' msg' H. rewrite Ha in H. inversion H. subst. symmetry.
        now apply Nat.eqb_eq.
      * right; right. exists (string_of_list_ascii w), n, msg. auto.
    + split; [reflexivity|split; [exact Hx|split; [|exact Hargs]]].
      intros n' msg' H. rewrite Ha in H. discriminate.
  - destruct (assoc (string_of_list_ascii w) argmap) as [[n msg]|] eqn:Ha.
    + destruct (Nat.eqb n (length (map string_of_list_ascii ws))) eqn:En;
        cbn [negb fst snd].
      * right; left; reflexivity.
      * right; right. exists (string_of_list_ascii w), n, msg. auto.
    + right; left; reflexivity.
Qed.

(** ** Colours, and the listing of legal moves *)

Lemma lower_char_not_B (x : ascii) : Ascii.eqb (lower_char x) "B"%char = false.
Proof. destruct x as [[] [] [] [] [] [] [] []]; reflexivity. Qed.

(** The callers of [color_to_int] ([play_cmd], [legal_moves_cmd],
    [genmove_cmd]) pass [args[0].lower()]: on such a string it gives BLACK
    exactly for "b" and "B", WHITE for "w" and "W", EMPTY for "e" and "E",
    and raises [KeyError] on every other argument; the key "BORDER" is never
    reached, since a lowered string has no capital letter. *)
Theorem color_to_int_lower (s : string) :
  color_to_int (lower s) =
  if String.eqb s "b"%string || String.eqb s "B"%string then Some BLACK
  else if String.eqb s "w"%string || String.eqb s "W"%string then Some WHITE
  else if String.eqb s "e"%string || String.eqb s "E"%string then Some EMPTY
  else None.
Proof.
  destruct s as [|x [|y r]].
  - reflexivity.
  - destruct x as [[] [] [] [] [] [] [] []]; reflexivity.
  - unfold color_to_int, lower. cbn [list_ascii_of_string map string_of_list_ascii String.eqb].
    rewrite lower_char_not_B. repeat destruct (Ascii.eqb _ _); reflexivity.
Qed.

Lemma format_point_table (r c bs : Z) :
  1 <= r <= bs -> 1 <= c <= bs -> 2 <= bs <= 24 ->
  exists s, format_point MAXSIZE (Some (r, c)) = Ok s /\
    list_ascii_of_string (lower s) <> [] /\
    Forall (fun x => py_isspace x = false) (list_ascii_of_string (lower s)) /\
    move_to_coord MAXSIZE (lower s) bs = Ok (Some (r, c)).
Proof.
  intros Hr Hc Hb. unfold MAXSIZE.
  assert (Hall : forallb (fun r => forallb (fun c => forallb (fun b =>
      implb ((r <=? b) && (c <=? b))
        match format_point 25 (Some (r, c)) with
        | Ok s => negb (Nat.eqb (length (list_ascii_of_string (lower s))) 0) &&
                  forallb (fun x => negb (py_isspace x)) (list_ascii_of_string (lower s)) &&
                  match move_to_coord 25 (lower s) b with
                  | Ok (Some (r', c')) => (r' =? r) && (c' =? c)
                  | _ => false
                  end
        | Raise _ => false
        end)
      (map (fun k => 2 + Z.of_nat k) (seq 0 23)))
      (map (fun k => 1 + Z.of_nat k) (seq 0 24)))
      (map (fun k => 1 + Z.of_nat k) (seq 0 24)) = true)
    by (vm_compute; reflexivity).
  rewrite forallb_forall in Hall.
  specialize (Hall r (In_zrange 1 r 24 ltac:(lia))).
  rewrite forallb_forall in Hall.
  specialize (Hall c (In_zrange 1 c 24 ltac:(lia))).
  rewrite forallb_forall in Hall.
  specialize (Hall bs (In_zrange 2 bs 23 ltac:(lia))).
  revert Hall.
  destruct (Z.leb_spec r bs), (Z.leb_spec c bs); try lia. cbn [andb implb].
  destruct (format_point 25 (Some (r, c))) as [s|e]; [|discriminate].
  intros Hk. apply andb_prop in Hk as [Hk H3]. apply andb_prop in Hk as [H1 H2].
  exists s. split; [reflexivity|]. split; [|split].
  - destruct (list_ascii_of_string (lower s)); [discriminate|congruence].
  - apply List.Forall_forall. intros x Hx. rewrite forallb_forall in H2.
    specialize (H2 x Hx). now destruct (py_isspace x).
  - destruct (move_to_coord 25 (lower s) bs) as [[[r' c']|]|e]; try discriminate.
    apply andb_prop in H3 as [E1 E2]. apply Z.eqb_eq in E1, E2. now subst.
Qed.

Lemma py_sort_perm (l : list string) : Permutation (py_sort l) l.
Proof.
  assert (Hins : forall x acc, Permutation (insert_sorted x acc) (x :: acc)).
  { intros x acc. induction acc as [|y r IH]; cbn; [reflexivity|].
    destruct (str_ltb _ _); [reflexivity|].
    rewrite IH. apply perm_swap. }
  unfold py_sort. enough (H : forall acc, Permutation (fold_left (fun acc x => insert_sorted x acc) l acc) (l ++ acc))
    by (rewrite H, app_nil_r; reflexivity).
  induction l as [|x l IH]; intros acc; cbn; [reflexivity|].
  rewrite IH, Hins. apply Permutation_sym, Permutation_middle.
Qed.

Lemma la_fold_spaces (out : list string) (a : string) :
  list_ascii_of_string (fold_left (fun acc i => (acc ++ i ++ " ")%string) out a) =
  list_ascii_of_string a ++ concat (map (fun w => list_ascii_of_string w ++ [" "%char]) out).
Proof.
  revert a. induction out as [|w out IH]; intros a; cbn [fold_left map concat].
  - now rewrite app_nil_r.
  - rewrite IH, !la_app, <- !app_assoc. reflexivity.
Qed.

Lemma la_lower (s : string) :
  list_ascii_of_string (lower s) = map lower_char (list_ascii_of_string s).
Proof. unfold lower. apply list_ascii_of_string_of_list_ascii. Qed.

Section LegalMovesProofs.

Context {Board : Type}.
Variable detect_five_in_a_row : Board -> Z.
Variable get_empty_points : Board -> list Z.
Variable size : Board -> Z.

Lemma format_points_ok (E : list Z) (bs : Z) :
  Forall (fun p => exists s, format_point MAXSIZE (point_to_coord (Some p) bs) = Ok s) E ->
  format_points E bs =
  Ok (map (fun p => match format_point MAXSIZE (point_to_coord (Some p) bs) with
                    | Ok s => s | Raise _ => ""%string end) E).
Proof.
  induction 1 as [|p E [s Hs] _ IH]; cbn [format_points]; [reflexivity|].
  rewrite Hs, IH. cbn [map]. rewrite Hs. reflexivity.
Qed.

(** The listing of [gogui-rules_legal_moves] reads back: when no five in a
    row is on the board, the response is the legal moves as words that
    [move_to_coord] turns back, in some order, into the coordinates of the
    empty points, each once. *)
Theorem gogui_rules_legal_moves_readback (b : Board) :
  detect_five_in_a_row b = EMPTY ->
  2 <= size b <= 24 ->
  (forall p, In p (get_empty_points b) ->
     1 <= p / (size b + 1) <= size b /\ 1 <= p mod (size b + 1)) ->
  exists body,
    gogui_rules_legal_moves_cmd detect_five_in_a_row get_empty_points size b = Ok (respond body) /\
    Permutation (map (fun t => move_to_coord MAXSIZE t (size b)) (py_split body))
                (map (fun p => Ok (point_to_coord (Some p) (size b))) (get_empty_points b)).
Proof.
  intros Hd Hs Hp.
  unfold gogui_rules_legal_moves_cmd.
  set (bs := size b) in *.
  set (F := fun p => match format_point MAXSIZE (point_to_coord (Some p) bs) with
                     | Ok s => s | Raise _ => ""%string end).
  assert (HF : forall p, In p (get_empty_points b) ->
     format_point MAXSIZE (point_to_coord (Some p) bs) = Ok (F p) /\
     list_ascii_of_string (lower (F p)) <> [] /\
     Forall (fun x => py_isspace x = false) (list_ascii_of_string (lower (F p))) /\
     move_to_coord MAXSIZE (lower (F p)) bs = Ok (point_to_coord (Some p) bs)).
  { intros p Hin. destruct (Hp p Hin) as [Hr Hc].
    assert (Hm : p mod (bs + 1) <= bs) by (pose proof (Z.mod_pos_bound p (bs + 1)); lia).
    destruct (format_point_table (p / (bs + 1)) (p mod (bs + 1)) bs Hr ltac:(lia) Hs)
      as [s [H1 [H2 [H3 H4]]]].
    unfold F. cbn [point_to_coord]. rewrite H1. auto. }
  rewrite Hd. cbn [Z.eqb negb].
  rewrite format_points_ok.
  2:{ apply List.Forall_forall. intros p Hin. exists (F p). now apply HF. }
  eexists. split; [reflexivity|].
  fold F.
  set (out := py_sort (map F (get_empty_points b))).
  assert (Hout : forall w, In w out ->
     exists p, In p (get_empty_points b) /\ w = F p).
  { intros w Hw. apply (Permutation_in _ (py_sort_perm _)) in Hw.
    apply in_map_iff in Hw as [p [Hp1 Hp2]]. eauto. }
  unfold py_split. rewrite la_lower, la_fold_spaces. cbn [list_ascii_of_string app].
  rewrite concat_map.
  replace (map (map lower_char) (map (fun w => list_ascii_of_string w ++ [" "%char]) out))
    with (map (fun w => w ++ [" "%char]) (map (fun w => list_ascii_of_string (lower w)) out)).
  2:{ rewrite !map_map. apply map_ext. intros w. rewrite la_lower, map_app. reflexivity. }
  rewrite split_go_words_spaced by
    (try reflexivity;
     apply List.Forall_map, List.Forall_forall; intros w Hw;
     destruct (Hout w Hw) as [p [Hin ->]]; apply HF in Hin; tauto).
  rewrite !map_map.
  erewrite map_ext by (intros w; rewrite string_of_list_ascii_of_string; reflexivity).
  transitivity (map (fun w => move_to_coord MAXSIZE (lower w) bs) (map F (get_empty_points b))).
  - apply Permutation_map, py_sort_perm.
  - rewrite map_map. apply Permutation_refl'. apply map_ext_in.
    intros p Hin. now apply HF.
Qed.

End LegalMovesProofs.

(** ** Window and table of the searcher *)

Section SearchWindow.

Context {Board : Type}.
Variable get_empty_points : Board -> list Z.
Variable current_player : Board -> Z.
Variable play_move : Board -> Z -> Z -> Board.
Variable undoMove : Board -> Board.
Variable endOfGame : Board -> bool.
Variable staticallyEvaluateForToPlay : Board -> Z.
Variable hash : Board -> Z.

Lemma ab_loop_window (child : Board -> Z -> Z -> TT -> Z * Board * TT)
    (ms : list (Z * Z)) (s : Board) (alpha beta : Z) (tt : TT) :
  alpha <= beta ->
  alpha <= fst (fst (ab_loop current_player play_move undoMove hash
                       child ms s alpha beta tt)) <= beta.
Proof.
  revert s alpha tt. induction ms as [|[m h] ms IH]; intros s alpha tt Hab; cbn; [lia|].
  destruct (child (play_move s m (current_player s)) (- beta) (- alpha) tt) as [[v s1] tt1].
  destruct (Z.gtb_spec (- v) alpha); cbn;
    [destruct ((- v =? 0) || (- v =? 5))|]; cbn;
    (destruct (Z.geb_spec (- v) beta); cbn; [lia|]);
    [pose proof (IH (undoMove s1) (- v) (storeMove hash tt1 (undoMove s1) m) ltac:(lia))
    |pose proof (IH (undoMove s1) (- v) tt1 ltac:(lia))
    |pose proof (IH (undoMove s1) alpha tt1 ltac:(lia))]; lia.
Qed.

Lemma ab_loop_stores (child : Board -> Z -> Z -> TT -> Z * Board * TT)
    (ms : list (Z * Z)) (s : Board) (alpha beta : Z) (tt : TT) :
  let '(r, s', tt') := ab_loop current_player play_move undoMove hash
                         child ms s alpha beta tt in
  tt_scores tt' !! hash s' = Some r.
Proof.
  revert s alpha tt. induction ms as [|[m h] ms IH]; intros s alpha tt; cbn.
  - apply lookup_insert_eq.
  - destruct (child (play_move s m (current_player s)) (- beta) (- alpha) tt) as [[v s1] tt1].
    destruct (- v >? alpha); cbn;
      [destruct ((- v =? 0) || (- v =? 5))|]; cbn;
      (destruct (- v >=? beta); cbn; [apply lookup_insert_eq|]); apply IH.
Qed.

(** Below the depth limit, at a position that is not over and has no
    recorded +5, [alphabeta_tt] answers inside its window: the value lies
    between [alpha] and [beta] (fail-hard). *)
Theorem alphabeta_tt_window (fuel : nat) (s : Board) (alpha beta : Z) (tt : TT)
    (depth : nat) (depthMove : Z) (depthLimit : nat) :
  proven_entry (tt_lookup tt (hash s)) = false ->
  endOfGame s = false -> depth <> depthLimit -> alpha <= beta ->
  alpha <= fst (fst (alphabeta_tt get_empty_points current_player play_move undoMove
                       endOfGame staticallyEvaluateForToPlay hash fuel s alpha beta tt
                       depth depthMove depthLimit)) <= beta.
Proof.
  intros Hp He Hd Hab. destruct fuel; cbn; rewrite Hp, He; cbn;
    (destruct (Nat.eqb_spec depth depthLimit); [contradiction|]); cbn; [lia|].
  destruct (orderMoves get_empty_points current_player play_move undoMove
              staticallyEvaluateForToPlay s) as [ms s0].
  now apply ab_loop_window.
Qed.

Hypothesis undo_play : forall (s : Board) (m : Z),
  In m (get_empty_points s) -> undoMove (play_move s m (current_player s)) = s.

(** A search started by the driver's entry point leaves its value in the
    table: after [alphabeta_tt] with [depth <= depthLimit], the score stored
    for the searched position is the value returned. *)
Theorem alphabeta_root_stores_value (s : Board) (alpha beta : Z) (tt : TT)
    (depth : nat) (depthMove : Z) (depthLimit : nat) :
  (depth <= depthLimit)%nat ->
  let '(r, _, tt') := alphabeta_root get_empty_points current_player play_move undoMove
                        endOfGame staticallyEvaluateForToPlay hash s alpha beta tt
                        depth depthMove depthLimit in
  tt_scores tt' !! hash s = Some r.
Proof.
  intros Hd. unfold alphabeta_root.
  destruct (Nat.eq_dec depth depthLimit) as [->|Hne].
  - rewrite Nat.sub_diag. cbn.
    destruct (proven_entry (tt_lookup tt (hash s))) eqn:Hp.
    + unfold proven_entry, tt_lookup in Hp.
      destruct (tt_scores tt !! hash s) as [x|] eqn:Hx, (tt_moves tt !! hash s);
        try discriminate; apply Z.eqb_eq in Hp; now subst.
    + rewrite Nat.eqb_refl, orb_true_r. apply lookup_insert_eq.
  - destruct (depthLimit - depth)%nat as [|fuel] eqn:Hf; [lia|]. cbn.
    destruct (proven_entry (tt_lookup tt (hash s))) eqn:Hp.
    + unfold proven_entry, tt_lookup in Hp.
      destruct (tt_scores tt !! hash s) as [x|] eqn:Hx, (tt_moves tt !! hash s);
        try discriminate; apply Z.eqb_eq in Hp; now subst.
    + destruct (endOfGame s || Nat.eqb depth depthLimit); [apply lookup_insert_eq|].
      pose proof (orderMoves_restores get_empty_points current_player play_move undoMove
                    staticallyEvaluateForToPlay undo_play s) as Hr.
      pose proof (orderMoves_perm get_empty_points current_player play_move undoMove
                    staticallyEvaluateForToPlay s) as Hperm.
      destruct (orderMoves get_empty_points current_player play_move undoMove
                  staticallyEvaluateForToPlay s) as [ms s0]. cbn in Hr, Hperm. subst s0.
      set (child := fun st a b t => alphabeta_tt get_empty_points current_player play_move
                      undoMove endOfGame staticallyEvaluateForToPlay hash fuel st a b t
                      (S depth) depthMove depthLimit).
      pose proof (ab_loop_stores child ms s alpha beta tt) as Hs.
      pose proof (ab_loop_restores get_empty_points current_player play_move undoMove
                    hash undo_play child
                    (fun st a b t => alphabeta_tt_restores get_empty_points current_player
                       play_move undoMove endOfGame staticallyEvaluateForToPlay hash
                       undo_play fuel st a b t (S depth) depthMove depthLimit)
                    ms s alpha beta tt) as Hres.
      destruct (ab_loop current_player play_move undoMove hash child
                  ms s alpha beta tt) as [[r s'] tt'].
      cbn in Hres. rewrite <- Hres. apply Hs.
      intros m h Hin. eapply Permutation_in; [exact Hperm|].
      apply in_map_iff. exists (m, h). auto.
Qed.

End SearchWindow.

(** ** The boolean solver and the plain searcher *)

Section PlainSolverProofs.

Context {Board : Type}.
Variable get_empty_points : Board -> list Z.
Variable current_player : Board -> Z.
Variable play_move : Board -> Z -> Z -> Board.
Variable undoMove : Board -> Board.
Variable endOfGame : Board -> bool.
Variable staticallyEvaluateForToPlay : Board -> Z.

Local Abbreviation nb := (negamaxBoolean get_empty_points current_player play_move undoMove
                  endOfGame staticallyEvaluateForToPlay).
Local Abbreviation loop := (nb_loop current_player play_move undoMove).
Local Abbreviation pab := (alphabeta get_empty_points current_player play_move undoMove
                   endOfGame staticallyEvaluateForToPlay).
Local Abbreviation ploop := (pab_loop current_player play_move undoMove).

Lemma pab_loop_window child ms s alpha beta depth md move out v mv s' o :
  alpha <= beta ->
  ploop child ms s alpha beta depth md move out = Some (v, mv, s', o) ->
  alpha <= v <= beta.
Proof.
  revert s alpha md move out. induction ms as [|m ms IH]; intros s alpha md move out Hab; cbn.
  - intros H. inversion H. lia.
  - destruct (child (play_move s m (current_player s)) (- beta) (- alpha) md)
      as [[[[v1 mv1] s1] o1]|]; [|discriminate].
    destruct (Z.gtb_spec (- v1) alpha); [destruct (md >? depth)|];
      (destruct (Z.geb_spec (- v1) beta); [intros Hr; inversion Hr; lia|]);
      intros Hr; apply IH in Hr; lia.
Qed.

Hypothesis undo_play : forall (s : Board) (m : Z),
  In m (get_empty_points s) -> undoMove (play_move s m (current_player s)) = s.

Lemma nb_loop_restores child
    (Hc : forall st md v mv st' o, child st md = Some (v, mv, st', o) -> st' = st)
    ms s depth md move out v mv s' o :
  (forall m, In m ms -> In m (get_empty_points s)) ->
  loop child ms s depth md move out = Some (v, mv, s', o) -> s' = s.
Proof.
  revert out. induction ms as [|m ms IH]; intros out Hin; cbn.
  - intros H. now inversion H.
  - destruct (child (play_move s m (current_player s)) md) as [[[[v1 mv1] s1] o1]|] eqn:E;
      [|discriminate].
    apply Hc in E. subst s1. rewrite undo_play by (apply Hin; now left).
    destruct (v1 =? 0); [destruct (md >? depth); intros H; now inversion H|].
    apply IH. intros x Hx. apply Hin. now right.
Qed.

Lemma negamaxBoolean_restores fuel s depth md v mv s' o :
  nb fuel s depth md = Some (v, mv, s', o) -> s' = s.
Proof.
  revert s depth md v mv s' o. induction fuel as [|fuel IH]; intros s depth md v mv s' o; cbn.
  - destruct (endOfGame s); [intros H; now inversion H|discriminate].
  - destruct (endOfGame s); [intros H; now inversion H|].
    apply nb_loop_restores; [|easy].
    intros st md' v' mv' st' o'. apply IH.
Qed.

Lemma pab_loop_restores child
    (Hc : forall st a b md v mv st' o, child st a b md = Some (v, mv, st', o) -> st' = st)
    ms s alpha beta depth md move out v mv s' o :
  (forall m, In m ms -> In m (get_empty_points s)) ->
  ploop child ms s alpha beta depth md move out = Some (v, mv, s', o) ->
  s' = s /\ (mv = move \/ (depth < md /\ In mv ms)).
Proof.
  revert alpha md move out. induction ms as [|m ms IH]; intros alpha md move out Hin; cbn.
  - intros H. inversion H. auto.
  - destruct (child (play_move s m (current_player s)) (- beta) (- alpha) md)
      as [[[[v1 mv1] s1] o1]|] eqn:E; [|discriminate].
    apply Hc in E. subst s1. rewrite undo_play by (apply Hin; now left).
    assert (Hin' : forall x, In x ms -> In x (get_empty_points s))
      by (intros x Hx; apply Hin; now right).
    destruct (- v1 >? alpha); [destruct (Z.gtb_spec md depth)|];
      (destruct (- v1 >=? beta); [intros Hr; inversion Hr; subst; auto with datatypes|]);
      intros Hr; apply IH in Hr as [-> Hm]; auto;
      (split; [reflexivity|]); destruct Hm as [->|[Hd Hm]]; auto with datatypes.
Qed.

Lemma nb_loop_result child
    (Hc : forall st md v mv st' o, child st md = Some (v, mv, st', o) -> st' = st)
    ms s depth md move out v mv s' o :
  (forall m, In m ms -> In m (get_empty_points s)) ->
  loop child ms s depth md move out = Some (v, mv, s', o) ->
  let fails p := exists v' mv' b' o',
    child (play_move s p (current_player s)) md = Some (v', mv', b', o') /\ v' <> 0 in
  (v = 1 /\ exists pre m post, ms = pre ++ m :: post /\ Forall fails pre /\
     (exists mv' b' o', child (play_move s m (current_player s)) md = Some (0, mv', b', o')) /\
     mv = if md >? depth then m else move)
  \/ (v = 0 /\ mv = move /\ Forall fails ms).
Proof.
  intros Hin H fails. revert out Hin H.
  induction ms as [|m ms IH]; intros out Hin; cbn.
  - intros H. inversion H. right. repeat split; constructor.
  - destruct (child (play_move s m (current_player s)) md) as [[[[v1 mv1] s1] o1]|] eqn:E;
      [|discriminate].
    pose proof E as E'. apply Hc in E'. subst s1. rewrite undo_play by (apply Hin; now left).
    destruct (Z.eqb_spec v1 0) as [->|Hv].
    + intros H. left. destruct (md >? depth); injection H as <- <- <- <-;
        (split; [reflexivity|]); exists [], m, ms; repeat split; eauto.
    + intros H. apply IH in H; [|intros x Hx; apply Hin; now right].
      assert (Hm : fails m) by (do 4 eexists; split; [exact E|exact Hv]).
      destruct H as [[-> [pre [m' [post [-> [Hpre [Hm' Hmv]]]]]]]|[-> [-> Hall]]].
      * left. split; [reflexivity|]. exists (m :: pre), m', post.
        repeat split; auto.
      * right. repeat split; auto.
Qed.

(** [negamaxBoolean] at a position that is not over tries the empty points
    in order and answers [True] at the first one whose child search
    returns a falsy value (0 or [False]); it answers [False] when every
    child returns a truthy value.  The move it reports is that point when
    [moveDepth > depth], and −1 otherwise.  A child where the game is over
    returns its evaluation, so a move that ends the game is a success only
    if it evaluates to 0 there.  The board is left as it was. *)
Theorem negamaxBoolean_first_success (fuel : nat) (s : Board) (depth md v mv : Z)
    (s' : Board) (o : list (Z * Z)) :
  endOfGame s = false ->
  nb (S fuel) s depth md = Some (v, mv, s', o) ->
  let fails p := exists v' mv' b' o',
    nb fuel (play_move s p (current_player s)) (depth + 1) md = Some (v', mv', b', o') /\
    v' <> 0 in
  s' = s /\
  ((v = 1 /\ exists pre m post, get_empty_points s = pre ++ m :: post /\ Forall fails pre /\
      (exists mv' b' o', nb fuel (play_move s m (current_player s)) (depth + 1) md
                         = Some (0, mv', b', o')) /\
      mv = if md >? depth then m else -1)
   \/ (v = 0 /\ mv = -1 /\ Forall fails (get_empty_points s))).
Proof.
  intros He H fails. split; [exact (negamaxBoolean_restores _ _ _ _ _ _ _ _ H)|].
  cbn in H. rewrite He in H.
  refine (nb_loop_result _ _ _ _ _ _ _ _ _ _ _ _ (fun _ h => h) H).
  intros st md' v' mv' st' o'. apply negamaxBoolean_restores.
Qed.

Lemma alphabeta_restores fuel s alpha beta depth md v mv s' o :
  pab fuel s alpha beta depth md = Some (v, mv, s', o) -> s' = s.
Proof.
  revert s alpha beta depth md v mv s' o.
  induction fuel as [|fuel IH]; intros s alpha beta depth md v mv s' o; cbn.
  - destruct (endOfGame s); [intros Hr; now inversion Hr|discriminate].
  - destruct (endOfGame s); [intros Hr; now inversion Hr|].
    intros Hr. apply pab_loop_restores in Hr; [tauto| |easy].
    intros st a b md' v' mv' st' o'. apply IH.
Qed.

(** The plain [alphabeta] at a position that is not over, with
    [alpha <= beta], answers inside its window, leaves the board as it
    was, and reports −1 or, when [moveDepth > depth], one of the empty
    points. *)
Theorem alphabeta_window_restores (fuel : nat) (s : Board) (alpha beta depth md : Z)
    (v mv : Z) (s' : Board) (o : list (Z * Z)) :
  endOfGame s = false -> alpha <= beta ->
  pab fuel s alpha beta depth md = Some (v, mv, s', o) ->
  alpha <= v <= beta /\ s' = s /\
  (mv = -1 \/ (depth < md /\ In mv (get_empty_points s))).
Proof.
  intros He Hab H. destruct fuel as [|fuel]; cbn in H; rewrite He in H; [discriminate|].
  split; [exact (pab_loop_window _ _ _ _ _ _ _ _ _ _ _ _ _ Hab H)|].
  refine (pab_loop_restores _ _ _ _ _ _ _ _ _ _ _ _ _ _ (fun _ h => h) H).
  intros st a b md' v' mv' st' o'. apply alphabeta_restores.
Qed.

Variable drawWinner : Board -> Z.
Variable set_drawWinner : Board -> Z -> Board.

(** [solveForColor] first searches with [drawWinner] set to the opponent of
    [color].  When that search answers truthy it returns 1 or −1 at once
    and leaves the board with [drawWinner] still set to the opponent of
    [color]; only otherwise is the saved [drawWinner] assigned back before
    the second search, whose answer gives 0 (truthy) or −1. *)
Theorem solveForColor_drawWinner (fuel : nat) (s : Board) (color : Z)
    (r mv : Z) (s' : Board) (o : list (Z * Z)) :
  solveForColor get_empty_points current_player play_move undoMove endOfGame
    staticallyEvaluateForToPlay drawWinner set_drawWinner fuel s color = Some (r, mv, s', o) ->
  let s1 := set_drawWinner s (opponent color) in
  exists w mv1 o1, nb fuel s1 0 INFINITY = Some (w, mv1, s1, o1) /\
    if w =? 0
    then s' = set_drawWinner s1 (drawWinner s) /\ (r = 0 \/ r = -1)
    else s' = s1 /\ r = (if current_player s1 =? color then 1 else -1) /\
         mv = mv1 /\ o = o1.
Proof.
  intros H s1. unfold solveForColor in H. cbv zeta in H. fold s1 in H.
  destruct (nb fuel s1 0 INFINITY) as [[[[w mv1] b1] o1]|] eqn:E1; [|discriminate].
  pose proof (negamaxBoolean_restores _ _ _ _ _ _ _ _ E1) as ->.
  exists w, mv1, o1. split; [reflexivity|].
  destruct (w =? 0); cbn in H.
  - destruct (nb fuel (set_drawWinner s1 (drawWinner s)) 0 INFINITY)
      as [[[[w2 mv2] b2] o2]|] eqn:E2; [|discriminate].
    apply negamaxBoolean_restores in E2 as ->.
    destruct (w2 =? 0); inversion H; subst; auto.
  - destruct (current_player s1 =? color); cbn in H; inversion H; subst; auto.
Qed.

End PlainSolverProofs.

(** ** Runs of the new theorems on Gomoku boards *)

Lemma gomokudraw_undo_play (b : GomokuDraw.DBoard) (m : Z) :
  In m (GomokuDraw.lift Gomoku.get_empty_points b) ->
  GomokuDraw.undoMove (GomokuDraw.play_move b m (GomokuDraw.lift Gomoku.current_player b)) = b.
Proof.
  destruct b as [g d]. unfold GomokuDraw.lift, GomokuDraw.undoMove, GomokuDraw.play_move.
  cbn. intros Hin. now rewrite gomoku_undo_play.
Qed.

Lemma gogui_rules_legal_moves_readback_witness :
  exists body,
    gogui_rules_legal_moves_cmd Gomoku.detect_five_in_a_row Gomoku.get_empty_points
      Gomoku.board_size GomokuDraw.two_stones = Ok (respond body) /\
    Permutation (map (fun t => move_to_coord MAXSIZE t (Gomoku.board_size GomokuDraw.two_stones))
                   (py_split body))
      (map (fun p => Ok (point_to_coord (Some p) (Gomoku.board_size GomokuDraw.two_stones)))
         (Gomoku.get_empty_points GomokuDraw.two_stones)).
Proof.
  apply gogui_rules_legal_moves_readback.
  - vm_compute. reflexivity.
  - vm_compute. split; discriminate.
  - intros p Hin.
    assert (Hall : forallb (fun p => (1 <=? p / 6) && (p / 6 <=? 5) && (1 <=? p mod 6))
                     (Gomoku.get_empty_points GomokuDraw.two_stones) = true) by (vm_compute; reflexivity).
    rewrite forallb_forall in Hall. specialize (Hall p Hin).
    replace (Gomoku.board_size GomokuDraw.two_stones + 1) with 6 by reflexivity.
    apply andb_prop in Hall as [Hall H3]. apply andb_prop in Hall as [H1 H2].
    apply Z.leb_le in H1, H2, H3. replace (Gomoku.board_size GomokuDraw.two_stones) with 5 by reflexivity.
    lia.
Defined.

Lemma alphabeta_tt_window_witness :
  - INFINITY <= fst (fst (GomokuSolver.alphabeta (Gomoku.new_board 2) (- INFINITY) INFINITY
                            empty_tt 0 1)) <= INFINITY.
Proof.
  exact (alphabeta_tt_window Gomoku.get_empty_points Gomoku.current_player Gomoku.play_move
           Gomoku.undoMove Gomoku.endOfGame Gomoku.staticallyEvaluateForToPlay Gomoku.hash
           (1 - 0) (Gomoku.new_board 2) (- INFINITY) INFINITY empty_tt 0 INFINITY 1
           ltac:(vm_compute; reflexivity) ltac:(vm_compute; reflexivity)
           ltac:(discriminate) ltac:(vm_compute; discriminate)).
Defined.

Lemma alphabeta_root_stores_value_witness :
  let '(r, _, tt') := alphabeta_root Gomoku.get_empty_points Gomoku.current_player
                        Gomoku.play_move Gomoku.undoMove Gomoku.endOfGame
                        Gomoku.staticallyEvaluateForToPlay Gomoku.hash (Gomoku.new_board 2)
                        (- INFINITY) INFINITY empty_tt 0 INFINITY 1 in
  tt_scores tt' !! Gomoku.hash (Gomoku.new_board 2) = Some r.
Proof.
  exact (alphabeta_root_stores_value Gomoku.get_empty_points Gomoku.current_player
           Gomoku.play_move Gomoku.undoMove Gomoku.endOfGame
           Gomoku.staticallyEvaluateForToPlay Gomoku.hash gomoku_undo_play
           (Gomoku.new_board 2) (- INFINITY) INFINITY empty_tt 0 INFINITY 1 ltac:(lia)).
Defined.

Lemma negamaxBoolean_first_success_witness :
  let b := GomokuDraw.near_full BLACK in
  GomokuDraw.negamaxBoolean 5 b 0 INFINITY =
    Some (0, -1, b, [(29, 3); (23, 3); (11, 1); (29, 3); (17, 3); (11, 1);
                     (23, 3); (17, 3); (11, 1)]) /\
  Gomoku.detect_five_in_a_row (Gomoku.play_move (GomokuDraw.gboard b) 11 BLACK) = BLACK /\
  Forall (fun p => exists v' mv' b' o',
     GomokuDraw.negamaxBoolean 4
       (GomokuDraw.play_move b p (GomokuDraw.lift Gomoku.current_player b)) (0 + 1) INFINITY
     = Some (v', mv', b', o') /\ v' <> 0)
    (GomokuDraw.lift Gomoku.get_empty_points b).
Proof.
  intros b.
  assert (Hrun : GomokuDraw.negamaxBoolean 5 b 0 INFINITY =
    Some (0, -1, b, [(29, 3); (23, 3); (11, 1); (29, 3); (17, 3); (11, 1);
                     (23, 3); (17, 3); (11, 1)])) by (vm_compute; reflexivity).
  split; [exact Hrun|]. split; [vm_compute; reflexivity|].
  destruct (negamaxBoolean_first_success (GomokuDraw.lift Gomoku.get_empty_points)
              (GomokuDraw.lift Gomoku.current_player) GomokuDraw.play_move GomokuDraw.undoMove
              (GomokuDraw.lift Gomoku.endOfGame)
              (GomokuDraw.lift Gomoku.staticallyEvaluateForToPlay) gomokudraw_undo_play
              4 b 0 INFINITY 0 (-1) b _ ltac:(vm_compute; reflexivity) Hrun)
    as [_ [[Hv _]|[_ [_ Hall]]]]; [discriminate|exact Hall].
Defined.

Lemma alphabeta_window_restores_witness :
  let b := GomokuDraw.near_full WHITE in
  GomokuDraw.alphabeta 5 b (- INFINITY) INFINITY 0 INFINITY =
    Some (-5, 11, b, [(35, 4); (29, 3); (23, 2); (17, 1); (11, 0)]) /\
  (- INFINITY <= -5 <= INFINITY /\ b = b /\
   (11 = -1 \/ (0 < INFINITY /\ In 11 (GomokuDraw.lift Gomoku.get_empty_points b)))).
Proof.
  intros b.
  assert (Hrun : GomokuDraw.alphabeta 5 b (- INFINITY) INFINITY 0 INFINITY =
    Some (-5, 11, b, [(35, 4); (29, 3); (23, 2); (17, 1); (11, 0)])) by (vm_compute; reflexivity).
  split; [exact Hrun|].
  exact (alphabeta_window_restores (GomokuDraw.lift Gomoku.get_empty_points)
           (GomokuDraw.lift Gomoku.current_player) GomokuDraw.play_move GomokuDraw.undoMove
           (GomokuDraw.lift Gomoku.endOfGame)
           (GomokuDraw.lift Gomoku.staticallyEvaluateForToPlay) gomokudraw_undo_play
           5 b (- INFINITY) INFINITY 0 INFINITY (-5) 11 b _
           ltac:(vm_compute; reflexivity) ltac:(vm_compute; discriminate) Hrun).
Defined.

Lemma solveForColor_drawWinner_witness :
  let b := GomokuDraw.near_full WHITE in
  GomokuDraw.drawWinner b = 7 /\
  GomokuDraw.solveForColor 5 b BLACK =
    Some (-1, 11, GomokuDraw.set_drawWinner b WHITE,
          [(35, 4); (23, 2); (35, 4); (17, 2); (35, 4); (17, 2); (11, 0)]) /\
  exists w mv1 o1,
    GomokuDraw.negamaxBoolean 5 (GomokuDraw.set_drawWinner b (opponent BLACK)) 0 INFINITY =
      Some (w, mv1, GomokuDraw.set_drawWinner b (opponent BLACK), o1) /\ w <> 0.
Proof.
  intros b.
  assert (Hrun : GomokuDraw.solveForColor 5 b BLACK =
    Some (-1, 11, GomokuDraw.set_drawWinner b WHITE,
          [(35, 4); (23, 2); (35, 4); (17, 2); (35, 4); (17, 2); (11, 0)]))
    by (vm_compute; reflexivity).
  split; [reflexivity|]. split; [exact Hrun|].
  destruct (solveForColor_drawWinner (GomokuDraw.lift Gomoku.get_empty_points)
              (GomokuDraw.lift Gomoku.current_player) GomokuDraw.play_move GomokuDraw.undoMove
              (GomokuDraw.lift Gomoku.endOfGame)
              (GomokuDraw.lift Gomoku.staticallyEvaluateForToPlay) gomokudraw_undo_play
              GomokuDraw.drawWinner GomokuDraw.set_drawWinner
              5 b BLACK (-1) 11 _ _ Hrun) as [w [mv1 [o1 [Hn Hw]]]].
  exists w, mv1, o1. split; [exact Hn|].
  destruct (w =? 0) eqn:Ew; [|now apply Z.eqb_neq in Ew].
  destruct Hw as [Hs _]. discriminate Hs.
Defined.

(** ** Reading back the time limit *)

Lemma digit_char_nat (d : nat) : (d < 10)%nat -> nat_of_ascii (digit_char d) = (48 + d)%nat.
Proof. intros Hd. unfold digit_char. apply nat_ascii_embedding. lia. Qed.

Lemma digits_aux_spec (f n : nat) (acc : list nat) :
  (n < f)%nat ->
  exists pre, digits_aux f n acc = pre ++ acc /\ pre <> [] /\
    Forall (fun d => d < 10)%nat pre /\
    fold_left (fun a d => a * 10 + Z.of_nat d) pre 0 = Z.of_nat n /\
    (length pre = 1%nat \/ 10 ^ (Z.of_nat (length pre) - 1) <= Z.of_nat n).
Proof.
  revert n acc. induction f as [|f IH]; intros n acc Hn; [lia|]. cbn [digits_aux].
  destruct (Nat.ltb_spec n 10).
  - exists [n]. split; [reflexivity|split; [discriminate|split; [constructor; [lia|constructor]|]]].
    split; [cbn; lia|now left].
  - destruct (IH (Nat.div n 10) (Nat.modulo n 10 :: acc)) as [pre [E [Hne [Hf [Hv Hlen]]]]].
    { pose proof (Nat.div_lt n 10). lia. }
    exists (pre ++ [Nat.modulo n 10]). rewrite E, <- app_assoc. split; [reflexivity|].
    split; [destruct pre; [congruence|discriminate]|].
    split; [apply Forall_app; split; [exact Hf|constructor; [apply Nat.mod_upper_bound; lia|constructor]]|].
    pose proof (Nat.div_mod_eq n 10) as Hdm. pose proof (Nat.mod_upper_bound n 10) as Hm.
    split.
    + rewrite fold_left_app, Hv. cbn [fold_left]. lia.
    + right. rewrite length_app. cbn [length].
      assert (Hp : (1 <= length pre)%nat) by (destruct pre; [congruence|cbn; lia]).
      replace (Z.of_nat (length pre + 1) - 1) with (Z.succ (Z.of_nat (length pre) - 1)) by lia.
      rewrite Z.pow_succ_r by lia.
      destruct Hlen as [Hl1|Hle].
      * rewrite Hl1. cbn. lia.
      * lia.
Qed.

Lemma parse_digits_map (pre : list nat) (acc : Z) :
  Forall (fun d => d < 10)%nat pre ->
  parse_digits (map digit_char pre) acc true =
  Some (fold_left (fun a d => a * 10 + Z.of_nat d) pre acc).
Proof.
  intros H. revert acc. induction H as [|d pre Hd _ IH]; intros acc; cbn; [reflexivity|].
  unfold is_digit. rewrite digit_char_nat by exact Hd.
  replace ((48 <=? 48 + d)%nat && (48 + d <=? 57)%nat) with true
    by (symmetry; apply andb_true_intro; split; apply Nat.leb_le; lia).
  rewrite IH. do 3 f_equal. lia.
Qed.

Lemma digit_chars (pre : list nat) :
  Forall (fun d => d < 10)%nat pre ->
  Forall (fun c => is_space c = false /\ py_isspace c = false /\
                   (nat_of_ascii c =? 45)%nat = false /\ (nat_of_ascii c =? 43)%nat = false /\
                   is_digit c = true) (map digit_char pre).
Proof.
  intros H. apply List.Forall_forall. intros c Hc.
  apply in_map_iff in Hc as [d [<- Hd]]. rewrite List.Forall_forall in H. specialize (H d Hd).
  do 10 (destruct d as [|d]; [vm_compute; repeat split; reflexivity|]). lia.
Qed.

Lemma drop_spaces_id (c : ascii) (l : list ascii) :
  is_space c = false -> drop_spaces (c :: l) = c :: l.
Proof. cbn. intros H. now rewrite H. Qed.

Lemma str_Z_chars (z : Z) :
  exists pre, Forall (fun d => d < 10)%nat pre /\ pre <> [] /\
    fold_left (fun a d => a * 10 + Z.of_nat d) pre 0 = Z.abs z /\
    (length pre = 1%nat \/ 10 ^ (Z.of_nat (length pre) - 1) <= Z.abs z) /\
    list_ascii_of_string (str_Z z) =
      (if z <? 0 then ["-"%char] else []) ++ map digit_char pre.
Proof.
  destruct (digits_aux_spec (S (Z.to_nat (Z.abs z))) (Z.to_nat (Z.abs z)) [] ltac:(lia))
    as [pre [E [Hne [Hf [Hv Hlen]]]]].
  rewrite app_nil_r in E. exists pre. split; [exact Hf|split; [exact Hne|split; [|split]]].
  - rewrite Hv. lia.
  - rewrite Z2Nat.id in Hlen by lia. exact Hlen.
  - unfold str_Z, digits. rewrite E.
    destruct (z <? 0); cbn [list_ascii_of_string app];
      now rewrite list_ascii_of_string_of_list_ascii.
Qed.

(** A string of digits has as many digits as characters. *)
Lemma filter_digit_chars (pre : list nat) :
  Forall (fun d => d < 10)%nat pre ->
  length (List.filter is_digit (map digit_char pre)) = length pre.
Proof.
  intros Hf. pose proof (digit_chars pre Hf) as Hc. rewrite <- (length_map digit_char pre).
  revert Hc. generalize (map digit_char pre) as l. intros l Hc.
  induction Hc as [|c l [_ [_ [_ [_ Hd]]]] _ IH]; [reflexivity|].
  cbn [List.filter]. rewrite Hd. cbn [length]. now rewrite IH.
Qed.

(** [int(str(z))] is [z], for [z] of at most [max_str_digits] digits. *)
Lemma py_int_str_Z (z : Z) : Z.abs z < 10 ^ Z.of_nat max_str_digits -> py_int (str_Z z) = Ok z.
Proof.
  intros Hb.
  destruct (str_Z_chars z) as [pre [Hf [Hne [Hv [Hlen Hl]]]]].
  pose proof (digit_chars pre Hf) as Hc.
  assert (Hcount : (max_str_digits <? length (List.filter is_digit (list_ascii_of_string (str_Z z))))%nat
                   = false).
  { apply Nat.ltb_ge. rewrite Hl, List.filter_app, length_app, filter_digit_chars by exact Hf.
    replace (length (List.filter is_digit (if z <? 0 then ["-"%char] else []))) with 0%nat
      by (destruct (z <? 0); reflexivity).
    destruct Hlen as [H1|Hle]; [unfold max_str_digits; lia|].
    assert (Hlt : 10 ^ (Z.of_nat (length pre) - 1) < 10 ^ Z.of_nat max_str_digits) by lia.
    apply Z.pow_lt_mono_r_iff in Hlt; lia. }
  revert Hcount.
  destruct pre as [|d pre]; [congruence|].
  inversion Hf as [|? ? Hd Hf']; subst.
  inversion Hc as [|? ? [Hs1 [_ [H45 [H43 Hdig]]]] Hc']; subst.
  assert (Hlast : forall l : list ascii, Forall (fun c => is_space c = false) l ->
                  rev (drop_spaces (rev l)) = l).
  { intros l Hl'. destruct (rev l) as [|c r] eqn:Er.
    - cbn. apply (f_equal (@rev ascii)) in Er. now rewrite rev_involutive in Er.
    - assert (Hin : In c (rev l)) by (rewrite Er; now left).
      apply in_rev in Hin. rewrite List.Forall_forall in Hl'.
      rewrite drop_spaces_id by now apply Hl'. now rewrite <- Er, rev_involutive. }
  assert (Hsp : Forall (fun c => is_space c = false) (map digit_char (d :: pre))).
  { eapply List.Forall_impl; [|exact Hc]. cbn. tauto. }
  unfold py_int. intros Hcount. rewrite Hcount. rewrite Hl.
  assert (Hparse : parse_digits (map digit_char (d :: pre)) 0 false = Some (Z.abs z)).
  { cbn [map parse_digits]. rewrite Hdig, parse_digits_map by exact Hf'.
    rewrite <- Hv. cbn [fold_left]. unfold digit_char. rewrite nat_ascii_embedding by lia.
    do 2 f_equal. lia. }
  destruct (Z.ltb_spec z 0).
  - cbn [app]. rewrite drop_spaces_id by reflexivity.
    rewrite Hlast by (constructor; [reflexivity|exact Hsp]).
    replace (nat_of_ascii "-"%char =? 45)%nat with true by reflexivity.
    rewrite Hparse. cbn [option_map]. f_equal. lia.
  - cbn [app map]. rewrite drop_spaces_id by exact Hs1. rewrite Hlast by exact Hsp.
    rewrite H45, H43, <- (map_cons digit_char d pre), Hparse. f_equal. lia.
Qed.

(** A string with more than [max_str_digits] digits is refused. *)
Lemma py_int_digit_limit (s : string) :
  (max_str_digits < length (List.filter is_digit (list_ascii_of_string s)))%nat ->
  py_int s = Raise ValueError.
Proof.
  intros H. apply Nat.ltb_lt in H. unfold py_int. cbv zeta. rewrite H.
  match goal with |- match ?p with _ => _ end = _ => destruct p end; reflexivity.
Qed.

Lemma fold_digits_bound (pre : list nat) (acc : Z) :
  Forall (fun d => d < 10)%nat pre -> 0 <= acc ->
  fold_left (fun a d => a * 10 + Z.of_nat d) pre acc < (acc + 1) * 10 ^ Z.of_nat (length pre).
Proof.
  intros H. revert acc. induction H as [|d pre Hd _ IH]; intros acc Ha; cbn [fold_left length].
  - cbn. lia.
  - specialize (IH (acc * 10 + Z.of_nat d) ltac:(lia)).
    rewrite Nat2Z.inj_succ, Z.pow_succ_r by lia.
    assert (0 < 10 ^ Z.of_nat (length pre)) by (apply Z.pow_pos_nonneg; lia).
    nia.
Qed.

(** [int(str(z))] raises [ValueError] once [z] has more than
    [max_str_digits] digits. *)
Lemma py_int_str_Z_large (z : Z) :
  10 ^ Z.of_nat max_str_digits <= Z.abs z -> py_int (str_Z z) = Raise ValueError.
Proof.
  intros Hb. apply py_int_digit_limit.
  destruct (str_Z_chars z) as [pre [Hf [_ [Hv [_ Hl]]]]].
  rewrite Hl, List.filter_app, length_app, filter_digit_chars by exact Hf.
  replace (length (List.filter is_digit (if z <? 0 then ["-"%char] else []))) with 0%nat
    by (destruct (z <? 0); reflexivity).
  pose proof (fold_digits_bound pre 0 Hf ltac:(lia)) as Hu. rewrite Hv in Hu.
  assert (Hlt : 10 ^ Z.of_nat max_str_digits < 10 ^ Z.of_nat (length pre)) by lia.
  apply Z.pow_lt_mono_r_iff in Hlt; lia.
Qed.

Lemma str_Z_word (z : Z) :
  str_Z z <> ""%string /\
  forallb (fun c => negb (py_isspace c)) (list_ascii_of_string (str_Z z)) = true.
Proof.
  destruct (str_Z_chars z) as [pre [Hf [Hne [_ [_ Hl]]]]].
  pose proof (digit_chars pre Hf) as Hc.
  split.
  - intros E. rewrite E in Hl. cbn in Hl.
    destruct (z <? 0); [discriminate|]. destruct pre; [congruence|discriminate].
  - rewrite Hl, forallb_app. apply andb_true_intro. split.
    + destruct (z <? 0); reflexivity.
    + apply forallb_forall. intros c Hin. rewrite List.Forall_forall in Hc.
      destruct (Hc c Hin) as [_ [-> _]]. reflexivity.
Qed.

(** [timelimit N], for every integer [N] written as [str] writes it: the
    command line reaches [time_limit_cmd] with the argument [str(N)].  When
    [N] has at most [max_str_digits] (4300) digits, [time_limit_cmd] sets
    [self.time] to [N] and answers with an empty success response; with
    more digits [int()] raises [ValueError] and [self.time] is not set. *)
Theorem timelimit_roundtrip (n : Z) :
  get_cmd (String.concat " " ["timelimit"; str_Z n])%string =
    ([], Some ("timelimit"%string, [str_Z n])) /\
  time_limit_cmd [str_Z n] =
    if Z.abs n <? 10 ^ Z.of_nat max_str_digits then Ok (n, respond "") else Raise ValueError.
Proof.
  destruct (str_Z_word n) as [Hne Hsp]. split.
  - apply get_cmd_dispatch.
    + cbn. tauto.
    + cbn. discriminate.
    + constructor; [split; assumption|constructor].
  - cbn [time_limit_cmd]. destruct (Z.ltb_spec (Z.abs n) (10 ^ Z.of_nat max_str_digits)).
    + now rewrite py_int_str_Z.
    + now rewrite py_int_str_Z_large.
Qed.
